(** * Trellis migrations: version comparator, manifest registry, migration plan

    Shallow embedding of [src/migrations/index.ts] together with a model of
    the template reconciler described in the design document.

    JavaScript values are modelled as follows.
    - A JS string is a Rocq [string]; each [ascii] stands for one code unit
      (the model covers code units below 256, which includes every version
      string made of ASCII characters).
    - A JS number is an IEEE double.  The numbers met here come from
      [parseInt] and are [NaN], an infinity, or a double whose value is an
      integer; such a double is represented by its exact value in [Z].
      [parseInt] rounds the integer it reads to the nearest double (ties
      to the even significand, as the runtime does) and [String] prints the
      shortest decimal that denotes the double.  The two zeros of IEEE are
      identified: every operation applied to these numbers ([||], [<],
      [>], [isNaN], [String]) gives the same result on both.
    - [undefined] is [None] in an [option].
    - A plain JS object used as a dictionary is an association list kept in
      property-creation order. *)

From Stdlib Require Import ZArith List String Ascii Bool Lia.
From Stdlib Require Import Sorted Permutation.
From Stdlib Require Import DecimalFacts DecimalPos DecimalN DecimalZ DecimalString.
From stdpp Require Import gmap strings.

Import ListNotations.
Local Open Scope string_scope.
Local Open Scope Z_scope.

(** ** JavaScript primitives used by the module *)

Module JS.

(** [s.split(sep)] for a one-character separator: every piece, in order.
    The result always has at least one element. *)
Fixpoint split (sep : ascii) (s : string) : list string :=
  match s with
  | EmptyString => [EmptyString]
  | String c s' =>
      if Ascii.eqb c sep then EmptyString :: split sep s'
      else match split sep s' with
           | piece :: rest => String c piece :: rest
           | [] => [String c EmptyString]
           end
  end.

(** [s.split(sep, limit)]: the pieces of [s.split(sep)], truncated to the
    first [limit] ones.  The remainder of the string is dropped. *)
Definition split_limit (sep : ascii) (limit : nat) (s : string) : list string :=
  firstn limit (split sep s).

(** Truthiness of a possibly undefined string: [undefined] and [""] are
    falsy. *)
Definition truthy (s : option string) : bool :=
  match s with
  | None => false
  | Some EmptyString => false
  | Some (String _ _) => true
  end.

(** The result of [parseInt]: [NaN], a double with an integer value, or
    an infinity ([Inf true] is the negative one). *)
Inductive number : Type :=
  | NaN : number
  | Num : Z -> number
  | Inf : bool -> number.

Definition isNaN (x : number) : bool :=
  match x with NaN => true | _ => false end.

(** [x < y] on numbers; any comparison with [NaN] is false. *)
Definition num_ltb (x y : number) : bool :=
  match x, y with
  | NaN, _ | _, NaN => false
  | Num a, Num b => a <? b
  | Num _, Inf negative => negb negative
  | Inf negative, Num _ => negative
  | Inf negative, Inf negative' => negative && negb negative'
  end.

(** [x || 0] for a number [x]: [NaN] and zero are falsy. *)
Definition or_zero (x : number) : number :=
  match x with
  | NaN => Num 0
  | Num z => if z =? 0 then Num 0 else x
  | Inf _ => x
  end.

(** The nearest natural number with at most 53 significant bits, ties to
    the even significand: the magnitude of the double nearest to [n], as
    long as the exponent range is not exceeded. *)
Definition round_nat (n : Z) : Z :=
  if n <? 2 ^ 53 then n
  else
    let ulp := 2 ^ (Z.log2 n - 52) in
    let q := n / ulp in
    let r := n mod ulp in
    let q' :=
      if 2 * r <? ulp then q
      else if ulp <? 2 * r then q + 1
      else if Z.even q then q else q + 1 in
    q' * ulp.

(** The double nearest to an integer; an infinity past the largest finite
    double. *)
Definition of_Z (z : Z) : number :=
  let m := round_nat (Z.abs z) in
  if m <? 2 ^ 1024 then Num (Z.sgn z * m) else Inf (z <? 0).

(** White space skipped by [parseInt] (TAB, LF, VT, FF, CR, SP, NBSP). *)
Definition is_white_space (c : ascii) : bool :=
  let n := nat_of_ascii c in
  orb (andb (Nat.leb 9 n) (Nat.leb n 13))
      (orb (Nat.eqb n 32) (Nat.eqb n 160)).

Fixpoint trim_start (s : string) : string :=
  match s with
  | EmptyString => EmptyString
  | String c s' => if is_white_space c then trim_start s' else s
  end.

Definition digit_of_char (c : ascii) : option (Decimal.uint -> Decimal.uint) :=
  match c with
  | "0"%char => Some Decimal.D0
  | "1"%char => Some Decimal.D1
  | "2"%char => Some Decimal.D2
  | "3"%char => Some Decimal.D3
  | "4"%char => Some Decimal.D4
  | "5"%char => Some Decimal.D5
  | "6"%char => Some Decimal.D6
  | "7"%char => Some Decimal.D7
  | "8"%char => Some Decimal.D8
  | "9"%char => Some Decimal.D9
  | _ => None
  end.

(** The longest prefix of decimal digits of [s]. *)
Fixpoint leading_digits (s : string) : Decimal.uint :=
  match s with
  | EmptyString => Decimal.Nil
  | String c s' =>
      match digit_of_char c with
      | Some d => d (leading_digits s')
      | None => Decimal.Nil
      end
  end.

(** The number denoted by a run of digits and a sign: the double nearest
    to the integer read; [NaN] for an empty run. *)
Definition number_of_digits (sign : Z) (d : Decimal.uint) : number :=
  match d with
  | Decimal.Nil => NaN
  | _ => of_Z (sign * Z.of_uint d)
  end.

(** [parseInt(s, 10)]: skip leading white space, read an optional sign,
    then the longest run of decimal digits; [NaN] when there is none.
    Every digit read counts: the result is the double nearest to the
    integer written, as V8 computes it. *)
Definition parseInt (s : string) : number :=
  let s1 := trim_start s in
  let '(sign, s2) :=
    match s1 with
    | String c r =>
        if Ascii.eqb c "-" then (-1, r)
        else if Ascii.eqb c "+" then (1, r)
        else (1, s1)
    | EmptyString => (1, s1)
    end in
  number_of_digits sign (leading_digits s2).

(** The decimal digits of an integer. *)
Definition decimal (n : Z) : string := NilZero.string_of_int (Z.to_int n).

(** The integer [c] denotes the double of value [v]: it rounds to it. *)
Definition represents (v c : Z) : bool :=
  match of_Z c with
  | Num z => z =? v
  | _ => false
  end.

(** The decimal with the fewest significant digits that denotes the
    double of value [v > 0]: the multiple of the largest power of ten
    [10^m], [m] counted down from the given bound, that rounds to [v];
    among two such multiples the one closer to [v], then the one with the
    even last digit.  The result is the multiple and the exponent [m]. *)
Fixpoint shortest (v : Z) (m : nat) : Z * nat :=
  let p := 10 ^ Z.of_nat m in
  let lo := v / p * p in
  let hi := lo + p in
  let pick :=
    match represents v lo, represents v hi with
    | true, true =>
        if v - lo <? hi - v then Some lo
        else if hi - v <? v - lo then Some hi
        else if Z.even (lo / p) then Some lo else Some hi
    | true, false => Some lo
    | false, true => Some hi
    | false, false => None
    end in
  match pick, m with
  | Some c, _ => (c, m)
  | None, S m' => shortest v m'
  | None, O => (v, O)
  end.

(** Exponent notation for the significant digits [s] of a number with
    [n] integer digits: [d.ddde+x] with [x = n - 1]. *)
Definition exponent_form (s n : Z) : string :=
  match decimal s with
  | String d rest =>
      String d
        ((match rest with
          | EmptyString => EmptyString
          | _ => String "." rest
          end) ++ "e+" ++ decimal (n - 1))
  | EmptyString => EmptyString
  end.

(** [String(x)] for a double [x] with a natural value [v]: the shortest
    decimal that denotes it, written in full below [10^21] and in exponent
    notation from there on. *)
Definition digits_of (v : Z) : string :=
  let '(c, m) := shortest v (String.length (decimal v)) in
  if c <? 10 ^ 21 then decimal c
  else exponent_form (c / 10 ^ Z.of_nat m)
         (Z.of_nat (String.length (decimal c))).

(** [String(x)] *)
Definition ToString (x : number) : string :=
  match x with
  | NaN => "NaN"
  | Inf negative => if negative then "-Infinity" else "Infinity"
  | Num z => if z <? 0 then String "-" (digits_of (- z)) else digits_of z
  end.

(** A [for (let i = start; i < start + n; i++)] loop whose body may
    [return]: the first returned value, or [None] when the loop runs to
    its end. *)
Fixpoint for_loop {A : Type} (n : nat) (i : nat) (body : nat -> option A)
  : option A :=
  match n with
  | O => None
  | S n' =>
      match body i with
      | Some r => Some r
      | None => for_loop n' (S i) body
      end
  end.

End JS.

(** ** The version comparator *)

(** [parseBase]: dot-separated components, each through
    [parseInt(n, 10) || 0]. *)
Definition parseBase (v : string) : list JS.number :=
  List.map (fun n => JS.or_zero (JS.parseInt n)) (JS.split "." v).

(** Body of the first loop of [compareVersions]. *)
Definition base_step (aBaseParts bBaseParts : list JS.number) (i : nat)
  : option Z :=
  let aVal := nth i aBaseParts (JS.Num 0) in
  let bVal := nth i bBaseParts (JS.Num 0) in
  if JS.num_ltb aVal bVal then Some (-1)
  else if JS.num_ltb bVal aVal then Some 1
  else None.

(** The test [!isNaN(n) && String(n) === p] applied to a pre-release
    field. *)
Definition isNum (p : string) : bool :=
  let n := JS.parseInt p in
  negb (JS.isNaN n) && String.eqb (JS.ToString n) p.

(** Body of the second loop of [compareVersions]. *)
Definition pre_step (aPre bPre : list string) (i : nat) : option Z :=
  match nth_error aPre i, nth_error bPre i with
  | None, _ => Some (-1)
  | Some _, None => Some 1
  | Some aP, Some bP =>
      let aNum := JS.parseInt aP in
      let bNum := JS.parseInt bP in
      let aIsNum := isNum aP in
      let bIsNum := isNum bP in
      if aIsNum && negb bIsNum then Some (-1)
      else if negb aIsNum && bIsNum then Some 1
      else if aIsNum && bIsNum then
        if JS.num_ltb aNum bNum then Some (-1)
        else if JS.num_ltb bNum aNum then Some 1
        else None
      else
        if String.ltb aP bP then Some (-1)
        else if String.ltb bP aP then Some 1
        else None
  end.

(** The value bound by [const [base, prerelease] = v.split("-", 2)]. *)
Definition split_version (v : string) : string * option string :=
  let parts := JS.split_limit "-" 2 v in
  (nth 0 parts EmptyString, nth_error parts 1).

Definition compareVersions (a b : string) : Z :=
  let '(aBase, aPrerelease) := split_version a in
  let '(bBase, bPrerelease) := split_version b in
  let aBaseParts := parseBase aBase in
  let bBaseParts := parseBase bBase in
  let maxBaseLen := Nat.max (length aBaseParts) (length bBaseParts) in
  match JS.for_loop maxBaseLen 0 (base_step aBaseParts bBaseParts) with
  | Some r => r
  | None =>
      if negb (JS.truthy aPrerelease) && JS.truthy bPrerelease then 1
      else if JS.truthy aPrerelease && negb (JS.truthy bPrerelease) then -1
      else if negb (JS.truthy aPrerelease) && negb (JS.truthy bPrerelease) then 0
      else
        (* both are defined here *)
        let aPre := JS.split "." (default EmptyString aPrerelease) in
        let bPre := JS.split "." (default EmptyString bPrerelease) in
        let maxPreLen := Nat.max (length aPre) (length bPre) in
        match JS.for_loop maxPreLen 0 (pre_step aPre bPre) with
        | Some r => r
        | None => 0
        end
  end.

(** ** Arrays and plain objects *)

Module Obj.

(** [arr.sort(comparefn)]: a stable sort; [comparefn x y <= 0] keeps [x]
    before [y].  Written as insertion from the right, which is stable. *)
Fixpoint insert {A : Type} (comparefn : A -> A -> Z) (x : A) (l : list A)
  : list A :=
  match l with
  | [] => [x]
  | y :: l' =>
      if comparefn x y <=? 0 then x :: l else y :: insert comparefn x l'
  end.

Definition sort {A : Type} (comparefn : A -> A -> Z) (l : list A) : list A :=
  fold_right (insert comparefn) [] l.

(** A plain object: its string-keyed properties in creation order. *)
Definition t (V : Type) : Type := list (string * V).

(** [obj[k]] for an own property [k]. *)
Fixpoint get {V : Type} (obj : t V) (k : string) : option V :=
  match obj with
  | [] => None
  | (k', v) :: rest => if String.eqb k' k then Some v else get rest k
  end.

(** Defining or updating an own property: an existing property keeps its
    position, a new one is created last. *)
Fixpoint set_own {V : Type} (obj : t V) (k : string) (v : V) : t V :=
  match obj with
  | [] => [(k, v)]
  | (k', v') :: rest =>
      if String.eqb k' k then (k', v) :: rest else (k', v') :: set_own rest k v
  end.

(** [obj[k] = v] on an object created by a literal.  The key
    ["__proto__"] reaches the inherited accessor and creates no own
    property. *)
Definition set {V : Type} (obj : t V) (k : string) (v : V) : t V :=
  if String.eqb k "__proto__" then obj else set_own obj k v.

(** A key is an array index when it is the canonical decimal form of an
    integer in [0, 2^32 - 2]. *)
Definition is_array_index (k : string) : bool :=
  match JS.parseInt k with
  | JS.Num z =>
      String.eqb (JS.ToString (JS.Num z)) k && (0 <=? z) && (z <? 2 ^ 32 - 1)
  | _ => false
  end.

(** The integer denoted by an array-index key. *)
Definition index_of (k : string) : Z :=
  match JS.parseInt k with
  | JS.Num z => z
  | _ => 0
  end.

Definition index_compare (x y : string) : Z := index_of x - index_of y.

(** [Object.keys(obj)]: array-index keys in ascending numeric order, then
    the other keys in creation order. *)
Definition keys {V : Type} (obj : t V) : list string :=
  let ks := List.map fst obj in
  (sort index_compare (List.filter is_array_index ks)
     ++ List.filter (fun k => negb (is_array_index k)) ks)%list.

End Obj.

(** ** Manifests *)

(** Modelled from the spec: [src/types/migration.ts] is not part of the
    sources at hand; the item and manifest records follow the data model
    of the design document (a type, a source path, a destination path for
    renames; a version, the ordered items and the metadata fields). *)
Inductive MigrationType : Type := rename | delete.

(** Modelled from the spec: a migration item, an object with the fields
    [type], [from] and the optional [to]. *)
Record MigrationItem : Type := {
  type : MigrationType;
  from : string;
  to : option string
}.

(** Modelled from the spec: a manifest, fields [version], [migrations]
    and the optional metadata, as [JSON.parse] delivers it.  The loader
    checks nothing but the version, so [migrations] may be missing or hold
    a value that cannot be iterated: that is [None]; [Some l] is an array
    of items. *)
Record MigrationManifest : Type := {
  version : string;
  migrations : option (list MigrationItem);
  changelog : option string;
  breaking : bool;
  recommendMigrate : bool;
  migrationGuide : option string;
  aiInstructions : option string
}.

Definition Registry : Type := Obj.t MigrationManifest.

(** ** The file system as seen by [loadManifests] *)

(** What the [try] block of the loader meets for one file: either
    [readFileSync]/[JSON.parse] raise (unreadable file, syntax error, a
    [null] payload whose property access raises), or a manifest object is
    obtained.  A payload without a [version] has the falsy version [""];
    a payload without a [migrations] array has [migrations] at [None]. *)
Inductive FileOutcome : Type :=
  | Throws : FileOutcome
  | Parsed : MigrationManifest -> FileOutcome.

(** The manifests directory: absent, present but not listable
    ([readdirSync] raises), or a listing of named files. *)
Inductive ManifestsDir : Type :=
  | Absent : ManifestsDir
  | Unlistable : ManifestsDir
  | Listing : list (string * FileOutcome) -> ManifestsDir.

(** Module state: the cache and the console output. *)
Record World : Type := {
  manifestCache : option Registry;
  console : list string
}.

(** Outcome of a call that may raise. *)
Inductive result (A : Type) : Type :=
  | Ok : A -> result A
  | Raise : result A.
Arguments Ok {A} _.
Arguments Raise {A}.

(** Sequencing: an exception ends the computation. *)
Definition bind {A B : Type} (r : result A) (k : A -> result B) : result B :=
  match r with
  | Ok a => k a
  | Raise => Raise
  end.

Notation "'let?' x ':=' r 'in' k" := (bind r (fun x => k))
  (at level 10, x name, r at level 100, k at level 200).

(** The spread [...value]: the elements of an array; a [TypeError] when
    the value is not iterable. *)
Definition spread {A : Type} (value : option (list A)) : result (list A) :=
  match value with
  | Some elements => Ok elements
  | None => Raise
  end.

(** [f.endsWith(suffix)] *)
Definition endsWith (suffix f : string) : bool :=
  let n := String.length f in
  let k := String.length suffix in
  Nat.leb k n && String.eqb (String.substring (n - k) k f) suffix.

Definition warning (file : string) : string :=
  "Warning: Failed to load migration manifest " ++ file.

(** One iteration of the loader's [for (const file of files)] loop. *)
Definition load_file (acc : Registry * list string)
  (entry : string * FileOutcome) : Registry * list string :=
  let '(manifests, out) := acc in
  let '(file, outcome) := entry in
  match outcome with
  | Parsed manifest =>
      if JS.truthy (Some (version manifest))
      then (Obj.set manifests (version manifest) manifest, out)
      else (manifests, out)
  | Throws => (manifests, (out ++ [warning file])%list)
  end.

Definition loadManifests (dir : ManifestsDir) (w : World)
  : result Registry * World :=
  match manifestCache w with
  | Some cached => (Ok cached, w)
  | None =>
      match dir with
      | Absent =>
          (Ok [], {| manifestCache := Some []; console := console w |})
      | Unlistable => (Raise, w)
      | Listing entries =>
          let files :=
            List.filter (fun e => endsWith ".json" (fst e)) entries in
          let '(manifests, out) :=
            fold_left load_file files ([], console w) in
          (Ok manifests, {| manifestCache := Some manifests; console := out |})
      end
  end.

(** [clearManifestCache] *)
Definition clearManifestCache (w : World) : World :=
  {| manifestCache := None; console := console w |}.

(** ** The migration plan *)

(** The filter predicate of [getMigrationsForVersion]. *)
Definition applicable (fromVersion toVersion v : string) : bool :=
  let afterFrom := compareVersions v fromVersion >? 0 in
  let atOrBeforeTo := compareVersions v toVersion <=? 0 in
  afterFrom && atOrBeforeTo.

Definition applicableVersions (manifests : Registry)
  (fromVersion toVersion : string) : list string :=
  let versions := Obj.sort compareVersions (Obj.keys manifests) in
  List.filter (applicable fromVersion toVersion) versions.

(** The items pushed for one version: [...manifest.migrations] when the
    lookup yields a manifest; the spread raises when [migrations] is not
    iterable. *)
Definition items_of (manifests : Registry) (v : string)
  : result (list MigrationItem) :=
  match Obj.get manifests v with
  | Some manifest => spread (migrations manifest)
  | None => Ok []
  end.

(** One iteration of the collecting loop. *)
Definition push_items (manifests : Registry)
  (allMigrations : result (list MigrationItem)) (v : string)
  : result (list MigrationItem) :=
  let? all := allMigrations in
  let? items := items_of manifests v in
  Ok (all ++ items)%list.

(** The body of [getMigrationsForVersion] after the registry is loaded. *)
Definition collectMigrations (manifests : Registry)
  (fromVersion toVersion : string) : result (list MigrationItem) :=
  fold_left (push_items manifests)
    (applicableVersions manifests fromVersion toVersion) (Ok []).

Definition getMigrationsForVersion (dir : ManifestsDir)
  (fromVersion toVersion : string) (w : World)
  : result (list MigrationItem) * World :=
  match loadManifests dir w with
  | (Ok manifests, w') =>
      (collectMigrations manifests fromVersion toVersion, w')
  | (Raise, w') => (Raise, w')
  end.

(** ** Three-way comparators

    The vocabulary used to state and prove the ordering properties: a
    three-way comparison returns a negative, zero or positive integer. *)

(** Numeric three-way comparison. *)
Definition Zcmp (x y : Z) : Z :=
  if x <? y then -1 else if y <? x then 1 else 0.

(** String three-way comparison by code units. *)
Definition strCmp (x y : string) : Z :=
  if String.ltb x y then -1 else if String.ltb y x then 1 else 0.

(** Lexicographic combination: [c1] decides unless it ties. *)
Definition lexc {A : Type} (c1 c2 : A -> A -> Z) (x y : A) : Z :=
  if c1 x y =? 0 then c2 x y else c1 x y.

(** Comparison through a key. *)
Definition on_key {A B : Type} (c : B -> B -> Z) (key : A -> B) (x y : A) : Z :=
  c (key x) (key y).

(** A consistent comparator: antisymmetric, and transitive on [<= 0]. *)
Record Comparator {A : Type} (c : A -> A -> Z) : Prop := {
  cmp_antisym : forall x y, c x y = - c y x;
  cmp_trans : forall x y z, c x y <= 0 -> c y z <= 0 -> c x z <= 0
}.

(** Three-way comparison of JS numbers: the negative infinity, the
    finite numbers by value, the positive infinity.  On numbers other
    than [NaN] it is the order of [<]; [NaN] is placed first to make the
    comparison total. *)
Definition numClass (x : JS.number) : Z :=
  match x with
  | JS.NaN => 0
  | JS.Inf true => 1
  | JS.Num _ => 2
  | JS.Inf false => 3
  end.

Definition numMagnitude (x : JS.number) : Z :=
  match x with
  | JS.Num z => z
  | _ => 0
  end.

Definition numCmp (x y : JS.number) : Z :=
  lexc (on_key Zcmp numClass) (on_key Zcmp numMagnitude) x y.

(** First difference of two indexed sequences over positions
    [i, i + n). *)
Definition seq_step {A : Type} (c : A -> A -> Z) (f g : nat -> A) (i : nat)
  : option Z :=
  let r := c (f i) (g i) in if r =? 0 then None else Some r.

Definition seq_cmp {A : Type} (c : A -> A -> Z) (n i : nat) (f g : nat -> A)
  : Z :=
  default 0 (JS.for_loop n i (seq_step c f g)).

(** *** The three stages of [compareVersions] *)

Definition baseParts (v : string) : list JS.number :=
  parseBase (fst (split_version v)).

(** Outcome of the base loop; [0] when it runs to its end. *)
Definition baseCmp (a b : string) : Z :=
  default 0
    (JS.for_loop (Nat.max (length (baseParts a)) (length (baseParts b))) 0
       (base_step (baseParts a) (baseParts b))).

(** The pre-release suffix kept by the comparator, when it is truthy. *)
Definition prerelease (v : string) : option string :=
  if JS.truthy (snd (split_version v)) then snd (split_version v) else None.

Definition hasPrerelease (v : string) : bool := JS.truthy (snd (split_version v)).

(** Release after pre-release. *)
Definition flagCmp (a b : string) : Z :=
  Zcmp (if hasPrerelease a then 0 else 1) (if hasPrerelease b then 0 else 1).

(** The dot-separated fields of the pre-release suffix. *)
Definition preFields (v : string) : list string :=
  match prerelease v with
  | Some p => JS.split "." p
  | None => []
  end.

(** Outcome of the pre-release loop; [0] when it runs to its end. *)
Definition preCmp (a b : string) : Z :=
  default 0
    (JS.for_loop (Nat.max (length (preFields a)) (length (preFields b))) 0
       (pre_step (preFields a) (preFields b))).

(** Order of two fields present at the same position: numeric before
    non-numeric, numeric fields by value, the others by code units. *)
Definition classCmp (p q : string) : Z :=
  Zcmp (if isNum p then 0 else 1) (if isNum q then 0 else 1).

Definition numValue (p : string) : Z :=
  if isNum p then numMagnitude (JS.parseInt p) else 0.

Definition fieldCmp (p q : string) : Z :=
  lexc classCmp (lexc (on_key Zcmp numValue) strCmp) p q.

(** The same, extended to a possibly missing field: missing first. *)
Definition slotCmp (x y : option string) : Z :=
  lexc (on_key Zcmp (fun o : option string => if o is Some _ then 1 else 0))
       (on_key fieldCmp (default EmptyString)) x y.

(** *** Hyphens *)

(** [s.includes(c)] for one character. *)
Fixpoint includes (c : ascii) (s : string) : bool :=
  match s with
  | EmptyString => false
  | String d s' => Ascii.eqb d c || includes c s'
  end.

(** *** Canonical decimal numerals *)

Fixpoint all_digits (s : string) : bool :=
  match s with
  | EmptyString => true
  | String c s' =>
      (if JS.digit_of_char c is Some _ then true else false) && all_digits s'
  end.

(** A non-empty run of digits without a superfluous leading zero. *)
Definition canonicalNat (s : string) : bool :=
  match s with
  | EmptyString => false
  | String c r => if Ascii.eqb c "0" then String.eqb r "" else all_digits s
  end.

(** Canonical decimal form of an integer: [canonicalNat], or a minus sign
    followed by a non-zero [canonicalNat]. *)
Definition canonicalInt (s : string) : bool :=
  match s with
  | EmptyString => false
  | String c r =>
      if Ascii.eqb c "-" then canonicalNat r && negb (String.eqb r "0")
      else canonicalNat s
  end.

(** The integer denoted by a canonical numeral. *)
Definition decimalValue (s : string) : Z :=
  match s with
  | EmptyString => 0
  | String c r =>
      if Ascii.eqb c "-" then - Z.of_uint (JS.leading_digits r)
      else Z.of_uint (JS.leading_digits s)
  end.

(** The field-by-field rule of the design document, for a given reading
    [numeric] of a field as a number, by recursion on the two lists of
    fields: a missing field sorts first, a numeric field sorts before a
    non-numeric one, two numeric fields compare by value, two non-numeric
    fields by code units; ties move to the next field. *)
Fixpoint compareFieldsBy (numeric : string -> option Z) (xs ys : list string)
  : Z :=
  match xs, ys with
  | [], [] => 0
  | [], _ :: _ => -1
  | _ :: _, [] => 1
  | x :: xs', y :: ys' =>
      match numeric x, numeric y with
      | Some _, None => -1
      | None, Some _ => 1
      | Some n, Some m =>
          if n <? m then -1 else if m <? n then 1
          else compareFieldsBy numeric xs' ys'
      | None, None =>
          if String.ltb x y then -1
          else if String.ltb y x then 1
          else compareFieldsBy numeric xs' ys'
      end
  end.

(** The reading of the design document: a field that is a pure integer,
    taken here in the narrowest sense of a canonical numeral, is numeric
    and stands for its value. *)
Definition numericField (p : string) : option Z :=
  if canonicalInt p then Some (decimalValue p) else None.

(** The rule as the design document words it. *)
Definition compareFields (xs ys : list string) : Z :=
  compareFieldsBy numericField xs ys.

(** The reading of the code: a field is numeric when the runtime prints
    the number it reads from the field back as the field. *)
Definition printedField (p : string) : option Z :=
  if isNum p then Some (decimalValue p) else None.

(** The design document's suffix of a version: everything after the first
    hyphen, when there is one. *)
Fixpoint afterFirstHyphen (v : string) : option string :=
  match v with
  | EmptyString => None
  | String c r => if Ascii.eqb c "-" then Some r else afterFirstHyphen r
  end.

(** Two versions have equal numeric bases: the same component at every
    position, a missing component counting as [0]. *)
Definition sameBase (a b : string) : Prop :=
  forall i,
    nth i (baseParts a) (JS.Num 0) = nth i (baseParts b) (JS.Num 0).

(** The base components with every unparseable one read as [0]. *)
Definition lenientParts (v : string) : list JS.number :=
  List.map (fun c => match JS.parseInt c with
                     | JS.NaN => JS.Num 0
                     | x => x
                     end)
    (JS.split "." (fst (split_version v))).

(** A manifest that carries only structural items. *)
Definition manifestOf (v : string) (items : list MigrationItem)
  : MigrationManifest :=
  {| version := v; migrations := Some items; changelog := None;
     breaking := false; recommendMigrate := false;
     migrationGuide := None; aiInstructions := None |}.

(** The items of a manifest, none when [migrations] is not an array. *)
Definition authoredItems (m : MigrationManifest) : list MigrationItem :=
  default [] (migrations m).

(** The items of the manifest registered under a version. *)
Definition itemsAt (manifests : Registry) (v : string) : list MigrationItem :=
  match Obj.get manifests v with
  | Some m => authoredItems m
  | None => []
  end.

(** The [migrations] of a manifest can be spread. *)
Definition iterable (m : MigrationManifest) : bool :=
  if migrations m is Some _ then true else false.

(** The manifest registered under a version, if any, can be spread. *)
Definition iterableAt (manifests : Registry) (v : string) : bool :=
  match Obj.get manifests v with
  | Some m => iterable m
  | None => true
  end.

(** The order induced by the comparator. *)
Definition versionLe (x y : string) : Prop := compareVersions x y <= 0.

(** ** The template reconciler *)

Module Reconciler.

(** Modelled from the spec: the reconciler itself ([src/commands/update.ts])
    is not among the sources; what follows is the contract of sections 3,
    4.4 and 4.5 of the design document.  A file operation is a create, an
    update, a delete, a rename or a backup. *)
Inductive FileOp : Type :=
  | Create : string -> FileOp
  | Update : string -> FileOp
  | Delete : string -> FileOp
  | Rename : string -> string -> FileOp
  | Backup : string -> FileOp.

(** Modelled from the spec: a template file is keyed by its relative path
    and carries the platform it belongs to and its resolved content. *)
Record TemplateFile : Type := {
  platform : string;
  content : string
}.

(** Modelled from the spec: the options of a reconciliation: dry run, and
    the stricter mode in which a conflict is skipped and reported. *)
Record Options : Type := {
  dryRun : bool;
  strict : bool
}.

(** Modelled from the spec: the persisted project state: the files on
    disk by relative path, the fingerprint file (path to content hash),
    the version marker, and the backups taken so far. *)
Record Project : Type := {
  files : gmap string string;
  fingerprints : gmap string string;
  versionMarker : string;
  backups : list (string * string)
}.

(** Modelled from the spec: the result aggregates of section 4.5, with the
    file operations performed, in order (none in a dry run, which only
    reports). *)
Record ReconciliationResult : Type := {
  created : list string;
  updated : list string;
  skipped : list string;
  deleted : list string;
  conflicts : list string;
  migrationCount : nat;
  operations : list FileOp
}.

(** Modelled from the spec: the four actions of the decision table. *)
Inductive Action : Type := DoCreate | DoSkip | DoOverwrite | DoConflict.

Section WithHash.

Variable hash : string -> string.

(** Modelled from the spec: [matches(path, content)] of the fingerprint
    store hashes the content and compares with the stored hash. *)
Definition matches (fp : gmap string string) (p c : string) : bool :=
  bool_decide (fp !! p = Some (hash c)).

(** Modelled from the spec: [record(path, content)]. *)
Definition record (fp : gmap string string) (p c : string)
  : gmap string string :=
  <[p := hash c]> fp.

(** Modelled from the spec: the per-file decision table of section 4.5.
    The file is pristine when the disk content matches the fingerprint;
    the template has changed since the last write when its content does
    not match the fingerprint. *)
Definition decision (pr : Project) (p template : string) : Action :=
  match files pr !! p with
  | None => DoCreate
  | Some disk =>
      let pristine := matches (fingerprints pr) p disk in
      let changed := negb (matches (fingerprints pr) p template) in
      match pristine, changed with
      | true, false => DoSkip
      | true, true => DoOverwrite
      | false, false => DoSkip
      | false, true => DoConflict
      end
  end.

Definition write (pr : Project) (p c : string) : Project :=
  {| files := <[p := c]> (files pr);
     fingerprints := record (fingerprints pr) p c;
     versionMarker := versionMarker pr;
     backups := backups pr |}.

Definition backup (pr : Project) (p : string) : Project :=
  match files pr !! p with
  | Some disk =>
      {| files := files pr;
         fingerprints := fingerprints pr;
         versionMarker := versionMarker pr;
         backups := (backups pr ++ [(p, disk)])%list |}
  | None => pr
  end.

(** Modelled from the spec: one row of the decision table applied to one
    candidate template. *)
Definition reconcileFile (o : Options)
  (acc : Project * ReconciliationResult) (entry : string * TemplateFile)
  : Project * ReconciliationResult :=
  let '(pr, res) := acc in
  let '(p, t) := entry in
  match decision pr p (content t) with
  | DoCreate =>
      (write pr p (content t),
       {| created := (created res ++ [p])%list; updated := updated res;
          skipped := skipped res; deleted := deleted res;
          conflicts := conflicts res; migrationCount := migrationCount res;
          operations := (operations res ++ [Create p])%list |})
  | DoSkip =>
      (pr,
       {| created := created res; updated := updated res;
          skipped := (skipped res ++ [p])%list; deleted := deleted res;
          conflicts := conflicts res; migrationCount := migrationCount res;
          operations := operations res |})
  | DoOverwrite =>
      (write pr p (content t),
       {| created := created res; updated := (updated res ++ [p])%list;
          skipped := skipped res; deleted := deleted res;
          conflicts := conflicts res; migrationCount := migrationCount res;
          operations := (operations res ++ [Update p])%list |})
  | DoConflict =>
      if strict o then
        (pr,
         {| created := created res; updated := updated res;
            skipped := (skipped res ++ [p])%list; deleted := deleted res;
            conflicts := (conflicts res ++ [p])%list;
            migrationCount := migrationCount res;
            operations := operations res |})
      else
        (write (backup pr p) p (content t),
         {| created := created res; updated := (updated res ++ [p])%list;
            skipped := skipped res; deleted := deleted res;
            conflicts := (conflicts res ++ [p])%list;
            migrationCount := migrationCount res;
            operations := (operations res ++ [Backup p; Update p])%list |})
  end.

(** Modelled from the spec: a structural migration applied to the disk: a
    rename moves an existing file, a delete removes an existing file. *)
Definition applyMigration (acc : Project * ReconciliationResult)
  (item : MigrationItem) : Project * ReconciliationResult :=
  let '(pr, res) := acc in
  match files pr !! from item with
  | None => acc
  | Some c =>
      match type item, to item with
      | rename, Some dst =>
          ({| files := <[dst := c]> (base.delete (from item) (files pr));
              fingerprints := fingerprints pr;
              versionMarker := versionMarker pr;
              backups := backups pr |},
           {| created := created res; updated := updated res;
              skipped := skipped res; deleted := deleted res;
              conflicts := conflicts res; migrationCount := migrationCount res;
              operations := (operations res ++ [Rename (from item) dst])%list |})
      | rename, None => acc
      | delete, _ =>
          ({| files := base.delete (from item) (files pr);
              fingerprints := fingerprints pr;
              versionMarker := versionMarker pr;
              backups := backups pr |},
           {| created := created res; updated := updated res;
              skipped := skipped res;
              deleted := (deleted res ++ [from item])%list;
              conflicts := conflicts res; migrationCount := migrationCount res;
              operations := (operations res ++ [Delete (from item)])%list |})
      end
  end.

(** Modelled from the spec: the templates that are candidates under the
    platform selection. *)
Definition candidates (selection : list string)
  (currentTemplates : gmap string TemplateFile)
  : list (string * TemplateFile) :=
  List.filter (fun e => bool_decide (platform (snd e) ∈ selection))
    (map_to_list currentTemplates).

(** Modelled from the spec: the downgrade guard: the recorded version is
    never lowered. *)
Definition nextVersion (projectVersion targetVersion : string) : string :=
  if compareVersions targetVersion projectVersion <? 0 then projectVersion
  else targetVersion.

(** Modelled from the spec: [reconcile(projectVersion, targetVersion,
    selection, currentTemplates, options)] once the structural plan is
    known.  The plan is applied first, then the decision table to every
    candidate template; the version marker is set by the downgrade guard;
    a dry run reports the same decisions and leaves the project
    untouched. *)
Definition reconcileWith (plan : list MigrationItem)
  (projectVersion targetVersion : string) (selection : list string)
  (currentTemplates : gmap string TemplateFile) (o : Options) (pr : Project)
  : Project * ReconciliationResult :=
  let start :=
    (pr, {| created := []; updated := []; skipped := []; deleted := [];
            conflicts := []; migrationCount := length plan;
            operations := [] |}) in
  let migrated := fold_left applyMigration plan start in
  let '(pr', res) :=
    fold_left (reconcileFile o) (candidates selection currentTemplates)
      migrated in
  if dryRun o then
    (pr,
     {| created := created res; updated := updated res;
        skipped := skipped res; deleted := deleted res;
        conflicts := conflicts res; migrationCount := migrationCount res;
        operations := [] |})
  else
    ({| files := files pr'; fingerprints := fingerprints pr';
        versionMarker := nextVersion projectVersion targetVersion;
        backups := backups pr' |}, res).

(** Modelled from the spec: [reconcile].  The plan comes from the
    aggregator, the real [getMigrationsForVersion] body, before anything
    is touched; an exception raised there ends the run. *)
Definition reconcile (manifests : Registry)
  (projectVersion targetVersion : string) (selection : list string)
  (currentTemplates : gmap string TemplateFile) (o : Options) (pr : Project)
  : result (Project * ReconciliationResult) :=
  let? plan := collectMigrations manifests projectVersion targetVersion in
  Ok (reconcileWith plan projectVersion targetVersion selection
        currentTemplates o pr).

(** An action that touches no file: a skip, or a conflict in strict
    mode. *)
Definition quiet (o : Options) (a : Action) : bool :=
  match a with
  | DoSkip => true
  | DoConflict => strict o
  | DoCreate | DoOverwrite => false
  end.

(** The project calls for no file operation on the template [t] at path
    [p]. *)
Definition settled (o : Options) (pr : Project) (p : string)
  (t : TemplateFile) : Prop :=
  quiet o (decision pr p (content t)) = true.

(** Two results report the same file operations. *)
Definition sameOperations (res res' : ReconciliationResult) : Prop :=
  operations res' = operations res /\ created res' = created res
  /\ updated res' = updated res /\ deleted res' = deleted res
  /\ migrationCount res' = migrationCount res.

End WithHash.

End Reconciler.

(** ** The other queries of the module *)

(** [Object.values(obj)]: the values of the own properties, in the order
    of [Object.keys]. *)
Definition objectValues {V : Type} (obj : Obj.t V) : list V :=
  flat_map (fun k => match Obj.get obj k with Some v => [v] | None => [] end)
    (Obj.keys obj).

(** A query that starts with [const manifests = loadManifests()] and then
    computes [body manifests]. *)
Definition withManifests {A : Type} (body : Registry -> A)
  (dir : ManifestsDir) (w : World) : result A * World :=
  match loadManifests dir w with
  | (Ok manifests, w') => (Ok (body manifests), w')
  | (Raise, w') => (Raise, w')
  end.

(** [hasPendingMigrations] *)
Definition hasPendingMigrations (dir : ManifestsDir)
  (fromVersion toVersion : string) (w : World) : result bool * World :=
  match getMigrationsForVersion dir fromVersion toVersion w with
  | (Ok l, w') => (Ok (0 <? length l)%nat, w')
  | (Raise, w') => (Raise, w')
  end.

(** The object returned by [getMigrationSummary]. *)
Record MigrationSummary : Type := {
  renames : nat;
  deletes : nat
}.

Definition isType (t : MigrationType) (m : MigrationItem) : bool :=
  match type m, t with
  | rename, rename => true
  | delete, delete => true
  | _, _ => false
  end.

(** The counts of [getMigrationSummary] over a list of items. *)
Definition summaryOf (l : list MigrationItem) : MigrationSummary :=
  {| renames := length (List.filter (isType rename) l);
     deletes := length (List.filter (isType delete) l) |}.

(** [getMigrationSummary] *)
Definition getMigrationSummary (dir : ManifestsDir)
  (fromVersion toVersion : string) (w : World)
  : result MigrationSummary * World :=
  match getMigrationsForVersion dir fromVersion toVersion w with
  | (Ok l, w') => (Ok (summaryOf l), w')
  | (Raise, w') => (Raise, w')
  end.

(** [getAllMigrationVersions] *)
Definition getAllMigrationVersions (dir : ManifestsDir) (w : World)
  : result (list string) * World :=
  withManifests (fun manifests => Obj.sort compareVersions (Obj.keys manifests))
    dir w.

(** One iteration of the loop of [getAllMigrations]: the spread raises
    when [migrations] is not iterable. *)
Definition push_all (allMigrations : result (list MigrationItem))
  (manifest : MigrationManifest) : result (list MigrationItem) :=
  let? all := allMigrations in
  let? items := spread (migrations manifest) in
  Ok (all ++ items)%list.

(** The body of [getAllMigrations] after the registry is loaded. *)
Definition allMigrationsOf (manifests : Registry)
  : result (list MigrationItem) :=
  fold_left push_all (objectValues manifests) (Ok []).

(** [getAllMigrations] *)
Definition getAllMigrations (dir : ManifestsDir) (w : World)
  : result (list MigrationItem) * World :=
  match loadManifests dir w with
  | (Ok manifests, w') => (allMigrationsOf manifests, w')
  | (Raise, w') => (Raise, w')
  end.

Module Metadata.

(** One element of [migrationGuides]. *)
Record Guide : Type := {
  version : string;
  guide : string;
  aiInstructions : option string
}.

(** The object returned by [getMigrationMetadata]. *)
Record t : Type := {
  changelog : list string;
  breaking : bool;
  recommendMigrate : bool;
  migrationGuides : list Guide
}.

End Metadata.

(** One iteration of the loop of [getMigrationMetadata]: a missing or
    empty [changelog] or [migrationGuide] is falsy. *)
Definition metadataStep (manifests : Registry) (result : Metadata.t)
  (v : string) : Metadata.t :=
  match Obj.get manifests v with
  | None => result
  | Some manifest =>
      {| Metadata.changelog :=
           if JS.truthy (changelog manifest)
           then (Metadata.changelog result
                   ++ [("v" ++ v ++ ": "
                        ++ default EmptyString (changelog manifest))%string])%list
           else Metadata.changelog result;
         Metadata.breaking :=
           if breaking manifest then true else Metadata.breaking result;
         Metadata.recommendMigrate :=
           if recommendMigrate manifest then true
           else Metadata.recommendMigrate result;
         Metadata.migrationGuides :=
           if JS.truthy (migrationGuide manifest)
           then (Metadata.migrationGuides result
                   ++ [{| Metadata.version := v;
                          Metadata.guide :=
                            default EmptyString (migrationGuide manifest);
                          Metadata.aiInstructions := aiInstructions manifest |}])%list
           else Metadata.migrationGuides result |}
  end.

Definition emptyMetadata : Metadata.t :=
  {| Metadata.changelog := []; Metadata.breaking := false;
     Metadata.recommendMigrate := false; Metadata.migrationGuides := [] |}.

(** The body of [getMigrationMetadata] after the registry is loaded. *)
Definition collectMetadata (manifests : Registry)
  (fromVersion toVersion : string) : Metadata.t :=
  fold_left (metadataStep manifests)
    (applicableVersions manifests fromVersion toVersion) emptyMetadata.

(** [getMigrationMetadata] *)
Definition getMigrationMetadata (dir : ManifestsDir)
  (fromVersion toVersion : string) (w : World) : result Metadata.t * World :=
  withManifests (fun manifests => collectMetadata manifests fromVersion toVersion)
    dir w.

(** The manifest of an applicable version, when the lookup finds one. *)
Definition manifestsOf (manifests : Registry) (vs : list string)
  : list (string * MigrationManifest) :=
  flat_map (fun v => match Obj.get manifests v with
                     | Some m => [(v, m)]
                     | None => []
                     end) vs.

(** A file that contributes an entry to the registry: a [.json] name and
    a manifest whose version is truthy and creates an own property. *)
Definition contributes (e : string * FileOutcome) : bool :=
  endsWith ".json" (fst e)
  && match snd e with
     | Parsed m =>
         JS.truthy (Some (version m)) && negb (String.eqb (version m) "__proto__")
     | Throws => false
     end.

(** A [.json] file whose reading or parsing raises. *)
Definition fails (e : string * FileOutcome) : bool :=
  endsWith ".json" (fst e)
  && match snd e with Throws => true | Parsed _ => false end.

(** The effect on the registry of one file that contributes. *)
Definition register (acc : Registry) (e : string * FileOutcome) : Registry :=
  match snd e with
  | Parsed m => Obj.set acc (version m) m
  | Throws => acc
  end.

(** A world whose cache holds nothing yet. *)
Definition freshWorld : World := {| manifestCache := None; console := [] |}.

(** The changelog line contributed by one applicable manifest. *)
Definition changelogLine (e : string * MigrationManifest) : list string :=
  if JS.truthy (changelog (snd e))
  then [("v" ++ fst e ++ ": " ++ default EmptyString (changelog (snd e)))%string]
  else [].

(** The migration guide contributed by one applicable manifest. *)
Definition guideOf (e : string * MigrationManifest) : list Metadata.Guide :=
  if JS.truthy (migrationGuide (snd e))
  then [{| Metadata.version := fst e;
           Metadata.guide := default EmptyString (migrationGuide (snd e));
           Metadata.aiInstructions := aiInstructions (snd e) |}]
  else [].

(** ** Ordering lemmas *)

Lemma Zcmp_comparator : Comparator Zcmp.
Proof.
  split; unfold Zcmp; intros.
  - destruct (x <? y) eqn:E1, (y <? x) eqn:E2; lia.
  - destruct (x <? y) eqn:E1, (y <? x) eqn:E2, (y <? z) eqn:E3, (z <? y) eqn:E4,
      (x <? z) eqn:E5, (z <? x) eqn:E6; lia.
Qed.

Lemma Zcmp_eq0 x y : Zcmp x y = 0 <-> x = y.
Proof. unfold Zcmp. destruct (x <? y) eqn:E1, (y <? x) eqn:E2; lia. Qed.

Lemma comparator_refl {A} (c : A -> A -> Z) :
  Comparator c -> forall x, c x x = 0.
Proof. intros [Ha _] x. specialize (Ha x x). lia. Qed.

Lemma comparator_ext {A} (c c' : A -> A -> Z) :
  (forall x y, c x y = c' x y) -> Comparator c -> Comparator c'.
Proof.
  intros E [Ha Ht]. split; intros.
  - rewrite <- !E. apply Ha.
  - rewrite <- !E in *. eauto.
Qed.

Lemma on_key_comparator {A B} (c : B -> B -> Z) (key : A -> B) :
  Comparator c -> Comparator (on_key c key).
Proof. intros [Ha Ht]. split; unfold on_key; intros; eauto. Qed.

Lemma lexc_comparator {A} (c1 c2 : A -> A -> Z) :
  Comparator c1 -> Comparator c2 -> Comparator (lexc c1 c2).
Proof.
  intros [Ha1 Ht1] [Ha2 Ht2]. split; unfold lexc.
  - intros x y. specialize (Ha1 x y). specialize (Ha2 x y).
    destruct (c1 x y =? 0) eqn:E1, (c1 y x =? 0) eqn:E2; lia.
  - intros x y z.
    pose proof (Ha1 x y). pose proof (Ha1 y z). pose proof (Ha1 x z).
    pose proof (Ht1 x y z). pose proof (Ht1 y z x). pose proof (Ht1 z x y).
    pose proof (Ht1 z y x). pose proof (Ht1 y x z). pose proof (Ht1 x z y).
    pose proof (Ht2 x y z).
    destruct (c1 x y =? 0) eqn:E1, (c1 y z =? 0) eqn:E2, (c1 x z =? 0) eqn:E3;
      lia.
Qed.

Lemma const0_comparator {A} : Comparator (fun _ _ : A => 0).
Proof. split; intros; lia. Qed.

Lemma string_compare_le_trans x y z :
  String.compare x y <> Gt -> String.compare y z <> Gt ->
  String.compare x z <> Gt.
Proof.
  revert y z. induction x as [|a x IH]; intros [|b y] [|c z]; simpl;
    try congruence.
  unfold Ascii.compare.
  destruct (N.compare_spec (N_of_ascii a) (N_of_ascii b)),
    (N.compare_spec (N_of_ascii b) (N_of_ascii c)),
    (N.compare_spec (N_of_ascii a) (N_of_ascii c));
    try congruence; try lia; eauto.
Qed.

Lemma strCmp_comparator : Comparator strCmp.
Proof.
  split; unfold strCmp, String.ltb.
  - intros x y. rewrite (String.compare_antisym y x).
    destruct (String.compare x y); simpl; lia.
  - intros x y z.
    pose proof (string_compare_le_trans x y z) as H1.
    pose proof (string_compare_le_trans y z x) as H2.
    pose proof (string_compare_le_trans z x y) as H3.
    rewrite (String.compare_antisym y x), (String.compare_antisym z y),
      (String.compare_antisym z x) in *.
    destruct (String.compare x y), (String.compare y z),
      (String.compare x z); simpl in *; intros; try lia;
      exfalso; intuition congruence.
Qed.

Lemma strCmp_eq0 x y : strCmp x y = 0 <-> x = y.
Proof.
  unfold strCmp, String.ltb. rewrite (String.compare_antisym y x). split.
  - destruct (String.compare x y) eqn:E; simpl; try lia.
    intros _. now apply String.compare_eq_iff.
  - intros ->. destruct (String.compare y y) eqn:E; simpl; try lia.
    + pose proof (String.compare_antisym y y) as H. rewrite E in H. discriminate.
    + pose proof (String.compare_antisym y y) as H. rewrite E in H. discriminate.
Qed.

(** *** Loops *)

Lemma for_loop_ext {A} n i (body body' : nat -> option A) :
  (forall j, (i <= j < i + n)%nat -> body j = body' j) ->
  JS.for_loop n i body = JS.for_loop n i body'.
Proof.
  revert i. induction n as [|n IH]; intros i H; simpl; [reflexivity|].
  rewrite <- (H i) by lia. destruct (body i); [reflexivity|].
  apply IH. intros j Hj. apply H. lia.
Qed.

Lemma for_loop_extend {A} n k i (body : nat -> option A) :
  (forall j, (i + n <= j)%nat -> body j = None) ->
  JS.for_loop (n + k) i body = JS.for_loop n i body.
Proof.
  revert i. induction n as [|n IH]; intros i H; simpl.
  - revert i H. induction k as [|k IHk]; intros i H; simpl; [reflexivity|].
    rewrite H by lia. apply IHk. intros j Hj. apply H. lia.
  - destruct (body i); [reflexivity|]. apply IH. intros j Hj. apply H. lia.
Qed.

Lemma seq_cmp_S {A} (c : A -> A -> Z) n i f g :
  seq_cmp c (S n) i f g
  = lexc (on_key c (fun h : nat -> A => h i)) (seq_cmp c n (S i)) f g.
Proof.
  unfold seq_cmp, lexc, on_key, seq_step. simpl.
  destruct (c (f i) (g i) =? 0); reflexivity.
Qed.

Lemma seq_cmp_comparator {A} (c : A -> A -> Z) n i :
  Comparator c -> Comparator (seq_cmp c n i).
Proof.
  intros Hc. revert i. induction n as [|n IH]; intros i.
  - apply (comparator_ext (fun _ _ => 0)); [reflexivity|apply const0_comparator].
  - eapply comparator_ext; [intros f g; symmetry; apply seq_cmp_S|].
    apply lexc_comparator; [now apply on_key_comparator|apply IH].
Qed.

Lemma for_loop_Some {A} n i (body : nat -> option A) r :
  JS.for_loop n i body = Some r ->
  exists j, (i <= j < i + n)%nat /\ body j = Some r.
Proof.
  revert i. induction n as [|n IH]; intros i; simpl; [discriminate|].
  destruct (body i) eqn:E.
  - intros [= <-]. exists i. split; [lia|assumption].
  - intros H. destruct (IH _ H) as (j & Hj & Hb). exists j. split; [lia|assumption].
Qed.

(** A comparison that agrees with the first difference of two keyed
    sequences, for every bound past both lengths, is a comparator. *)
Lemma comparator_of_seq {A} (cmp : string -> string -> Z)
  (c : A -> A -> Z) (key : string -> nat -> A) (len : string -> nat) :
  Comparator c ->
  (forall a b N, (Nat.max (len a) (len b) <= N)%nat ->
     cmp a b = seq_cmp c N 0 (key a) (key b)) ->
  Comparator cmp.
Proof.
  intros Hc H. split.
  - intros a b.
    rewrite (H a b (Nat.max (len a) (len b))) by lia.
    rewrite (H b a (Nat.max (len a) (len b))) by lia.
    apply (cmp_antisym _ (seq_cmp_comparator c _ 0 Hc)).
  - intros x y z.
    set (N := Nat.max (len x) (Nat.max (len y) (len z))).
    rewrite (H x y N), (H y z N), (H x z N) by lia.
    apply (cmp_trans _ (seq_cmp_comparator c _ 0 Hc)).
Qed.

Lemma lexc_zero {A} (c1 c2 : A -> A -> Z) x y :
  lexc c1 c2 x y = 0 <-> c1 x y = 0 /\ c2 x y = 0.
Proof.
  unfold lexc. destruct (c1 x y =? 0) eqn:E.
  - apply Z.eqb_eq in E. tauto.
  - apply Z.eqb_neq in E. tauto.
Qed.

(** ** Numbers *)

Lemma round_nat_small n : n < 2 ^ 53 -> JS.round_nat n = n.
Proof. intros H. unfold JS.round_nat. apply Z.ltb_lt in H. now rewrite H. Qed.

(** From [2^53] on, rounding stays within the binade of its argument. *)
Lemma round_nat_bounds n :
  2 ^ 53 <= n ->
  2 ^ Z.log2 n <= JS.round_nat n <= 2 ^ (Z.log2 n + 1).
Proof.
  intros Hn. unfold JS.round_nat.
  assert (Hpos : 0 < n) by (pose proof (Z.pow_pos_nonneg 2 53); lia).
  destruct (n <? 2 ^ 53) eqn:E; [apply Z.ltb_lt in E; lia|]. clear E.
  pose proof (Z.log2_spec n Hpos) as [Hlo Hhi].
  assert (Hl : 53 <= Z.log2 n).
  { rewrite <- (Z.log2_pow2 53) by lia. now apply Z.log2_le_mono. }
  set (l := Z.log2 n) in *.
  set (u := 2 ^ (l - 52)).
  assert (Hu : 0 < u) by (apply Z.pow_pos_nonneg; lia).
  assert (E1 : 2 ^ l = 2 ^ 52 * u).
  { unfold u. rewrite <- Z.pow_add_r by lia. f_equal. lia. }
  assert (E2 : 2 ^ (l + 1) = 2 ^ 53 * u).
  { unfold u. rewrite <- Z.pow_add_r by lia. f_equal. lia. }
  replace (Z.succ l) with (l + 1) in Hhi by lia.
  rewrite E1, E2 in *.
  assert (Hq1 : 2 ^ 52 <= n / u) by (apply Z.div_le_lower_bound; lia).
  assert (Hq2 : n / u < 2 ^ 53) by (apply Z.div_lt_upper_bound; lia).
  cbv zeta.
  set (q := n / u) in *. set (r := n mod u).
  destruct (2 * r <? u); [nia|].
  destruct (u <? 2 * r); [nia|].
  destruct (Z.even q); nia.
Qed.

Lemma round_nat_nonneg n : 0 <= n -> 0 <= JS.round_nat n.
Proof.
  intros H. destruct (Z.lt_ge_cases n (2 ^ 53)) as [Hs|Hl].
  - now rewrite round_nat_small.
  - pose proof (round_nat_bounds n Hl).
    pose proof (Z.pow_nonneg 2 (Z.log2 n)). lia.
Qed.

Lemma round_nat_large n : 2 ^ 53 <= n -> 2 ^ 53 <= JS.round_nat n.
Proof.
  intros H. pose proof (round_nat_bounds n H) as [Hb _].
  assert (Hl : 53 <= Z.log2 n).
  { rewrite <- (Z.log2_pow2 53) by lia. now apply Z.log2_le_mono. }
  pose proof (Z.pow_le_mono_r 2 53 (Z.log2 n)). lia.
Qed.

(** Rounding to the nearest double is monotone. *)
Lemma round_nat_mono a b : 0 <= a <= b -> JS.round_nat a <= JS.round_nat b.
Proof.
  intros [Ha Hab].
  destruct (Z.lt_ge_cases b (2 ^ 53)) as [Hb|Hb].
  { rewrite !round_nat_small by lia. exact Hab. }
  destruct (Z.lt_ge_cases a (2 ^ 53)) as [Ha'|Ha'].
  { rewrite (round_nat_small a) by lia. pose proof (round_nat_large b Hb). lia. }
  assert (Hl : Z.log2 a <= Z.log2 b) by now apply Z.log2_le_mono.
  destruct (Z.eq_dec (Z.log2 a) (Z.log2 b)) as [El|Nl].
  2:{ pose proof (round_nat_bounds a Ha') as [_ H1].
      pose proof (round_nat_bounds b Hb) as [H2 _].
      pose proof (Z.pow_le_mono_r 2 (Z.log2 a + 1) (Z.log2 b)). lia. }
  unfold JS.round_nat.
  destruct (a <? 2 ^ 53) eqn:E1; [apply Z.ltb_lt in E1; lia|].
  destruct (b <? 2 ^ 53) eqn:E2; [apply Z.ltb_lt in E2; lia|].
  rewrite El. cbv zeta.
  assert (H53 : 53 <= Z.log2 b).
  { rewrite <- (Z.log2_pow2 53) by lia. now apply Z.log2_le_mono. }
  set (u := 2 ^ (Z.log2 b - 52)).
  assert (Hu : 0 < u) by (apply Z.pow_pos_nonneg; lia).
  pose proof (Z.div_mod a u) as Da. pose proof (Z.div_mod b u) as Db.
  pose proof (Z.mod_pos_bound a u Hu). pose proof (Z.mod_pos_bound b u Hu).
  assert (Hq : a / u <= b / u) by (apply Z.div_le_mono; lia).
  set (qa := a / u) in *. set (qb := b / u) in *.
  set (ra := a mod u) in *. set (rb := b mod u) in *.
  destruct (Z.eq_dec qa qb) as [Eq|Nq].
  - rewrite Eq in *. assert (ra <= rb) by lia.
    destruct (2 * ra <? u) eqn:A1, (u <? 2 * ra) eqn:A2,
      (2 * rb <? u) eqn:B1, (u <? 2 * rb) eqn:B2;
      destruct (Z.even qb); try nia.
  - assert (qa + 1 <= qb) by lia.
    assert (X : forall q r, (if 2 * r <? u then q
                             else if u <? 2 * r then q + 1
                             else if Z.even q then q else q + 1) <= q + 1).
    { intros q r. destruct (2 * r <? u), (u <? 2 * r), (Z.even q); lia. }
    assert (Y : forall q r, q <= (if 2 * r <? u then q
                                  else if u <? 2 * r then q + 1
                                  else if Z.even q then q else q + 1)).
    { intros q r. destruct (2 * r <? u), (u <? 2 * r), (Z.even q); lia. }
    pose proof (X qa ra). pose proof (Y qb rb). nia.
Qed.

Lemma of_Z_safe z : Z.abs z < 2 ^ 53 -> JS.of_Z z = JS.Num z.
Proof.
  intros H. unfold JS.of_Z. rewrite round_nat_small by assumption.
  assert (E : (Z.abs z <? 2 ^ 1024) = true).
  { apply Z.ltb_lt. pose proof (Z.pow_lt_mono_r 2 53 1024). lia. }
  rewrite E. f_equal. lia.
Qed.

(** A finite double read from an integer of magnitude at least [2^53] has
    magnitude at least [2^53]. *)
Lemma of_Z_large c z :
  2 ^ 53 <= Z.abs c -> JS.of_Z c = JS.Num z -> 2 ^ 53 <= Z.abs z.
Proof.
  intros Hc. unfold JS.of_Z.
  destruct (JS.round_nat (Z.abs c) <? 2 ^ 1024); [|discriminate].
  intros [= <-]. pose proof (round_nat_large _ Hc). nia.
Qed.

Lemma of_Z_mono a b za zb :
  a <= b -> JS.of_Z a = JS.Num za -> JS.of_Z b = JS.Num zb -> za <= zb.
Proof.
  intros Hab. unfold JS.of_Z.
  destruct (JS.round_nat (Z.abs a) <? 2 ^ 1024); [|discriminate].
  destruct (JS.round_nat (Z.abs b) <? 2 ^ 1024); [|discriminate].
  intros [= <-] [= <-].
  pose proof (round_nat_nonneg (Z.abs a) (Z.abs_nonneg a)).
  pose proof (round_nat_nonneg (Z.abs b) (Z.abs_nonneg b)).
  destruct (Z.le_gt_cases 0 a) as [Ha|Ha].
  - pose proof (round_nat_mono (Z.abs a) (Z.abs b)). nia.
  - destruct (Z.le_gt_cases 0 b) as [Hb|Hb]; [nia|].
    pose proof (round_nat_mono (Z.abs b) (Z.abs a)). nia.
Qed.

Lemma of_Z_sign c z : JS.of_Z c = JS.Num z -> 0 < z -> 0 < c.
Proof.
  unfold JS.of_Z.
  destruct (JS.round_nat (Z.abs c) <? 2 ^ 1024); [|discriminate].
  intros [= <-]. pose proof (round_nat_nonneg (Z.abs c) (Z.abs_nonneg c)). nia.
Qed.

Lemma represents_spec v c :
  JS.represents v c = true <-> JS.of_Z c = JS.Num v.
Proof.
  unfold JS.represents. destruct (JS.of_Z c) as [|z|s]; split;
    try discriminate.
  - intros H. apply Z.eqb_eq in H. now subst.
  - intros [= ->]. apply Z.eqb_refl.
Qed.

(** What [shortest] returns denotes the double, unless it is the value
    itself. *)
Lemma shortest_spec v m c m' :
  JS.shortest v m = (c, m') -> c = v \/ JS.of_Z c = JS.Num v.
Proof.
  revert c m'. induction m as [|m IH]; intros c m'; cbn [JS.shortest].
  - set (p := 10 ^ Z.of_nat 0). set (lo := v / p * p).
    destruct (JS.represents v lo) eqn:E1, (JS.represents v (lo + p)) eqn:E2;
      apply represents_spec in E1 || clear E1;
      apply represents_spec in E2 || clear E2;
      repeat match goal with
             | |- context [if ?b then _ else _] => destruct b
             end;
      intros [= <- <-]; auto.
  - set (p := 10 ^ Z.of_nat (S m)). set (lo := v / p * p).
    destruct (JS.represents v lo) eqn:E1, (JS.represents v (lo + p)) eqn:E2;
      apply represents_spec in E1 || clear E1;
      apply represents_spec in E2 || clear E2;
      repeat match goal with
             | |- context [if ?b then _ else _] => destruct b
             end;
      try (intros [= <- <-]; auto; fail).
    apply IH.
Qed.

Lemma decimal_neg q :
  JS.decimal (Z.neg q) = String "-" (JS.decimal (Z.pos q)).
Proof. reflexivity. Qed.

(** A double of magnitude below [2^53] prints as its exact decimal
    expansion. *)
Lemma digits_of_safe v : 0 <= v < 2 ^ 53 -> JS.digits_of v = JS.decimal v.
Proof.
  intros Hv. unfold JS.digits_of.
  destruct (JS.shortest v _) as [c m] eqn:E.
  assert (Hc : c = v).
  { destruct (shortest_spec _ _ _ _ E) as [H|H]; [assumption|].
    destruct (Z.lt_ge_cases (Z.abs c) (2 ^ 53)) as [Hs|Hl].
    - rewrite of_Z_safe in H by assumption. congruence.
    - pose proof (of_Z_large _ _ Hl H). lia. }
  subst c.
  assert (Hlt : (v <? 10 ^ 21) = true) by (apply Z.ltb_lt; lia).
  now rewrite Hlt.
Qed.

Lemma ToString_safe z : Z.abs z < 2 ^ 53 -> JS.ToString (JS.Num z) = JS.decimal z.
Proof.
  intros H. cbn [JS.ToString]. destruct z as [|q|q].
  - reflexivity.
  - cbn [Z.ltb Z.compare]. apply digits_of_safe. lia.
  - cbn [Z.ltb Z.compare Z.opp]. rewrite digits_of_safe by lia.
    symmetry. apply decimal_neg.
Qed.

(** *** The order of JS numbers *)

Lemma numCmp_comparator : Comparator numCmp.
Proof.
  unfold numCmp. apply lexc_comparator; apply on_key_comparator, Zcmp_comparator.
Qed.

Lemma numCmp_eq0 x y : numCmp x y = 0 <-> x = y.
Proof.
  unfold numCmp. rewrite lexc_zero. unfold on_key. rewrite !Zcmp_eq0.
  destruct x as [|a|[]], y as [|b|[]]; cbn [numClass numMagnitude];
    split; try (intros [? ?]; congruence); try discriminate;
    try (intros [= ->]); auto.
Qed.

(** On numbers other than [NaN], the two tests of the base loop read off
    [numCmp]. *)
Lemma num_tests_cmp x y :
  JS.isNaN x = false -> JS.isNaN y = false ->
  (if JS.num_ltb x y then Some (-1)
   else if JS.num_ltb y x then Some 1 else None)
  = (if numCmp x y =? 0 then None else Some (numCmp x y)).
Proof.
  destruct x as [|a|[]], y as [|b|[]]; try discriminate; intros _ _;
    try reflexivity.
  unfold numCmp, lexc, on_key, Zcmp. cbn [numClass numMagnitude JS.num_ltb].
  destruct (a <? b) eqn:E1, (b <? a) eqn:E2; reflexivity.
Qed.

Lemma num_ltb_irrefl x : JS.num_ltb x x = false.
Proof. destruct x as [|a|[]]; try reflexivity. apply Z.ltb_irrefl. Qed.

Lemma or_zero_not_NaN x : JS.isNaN (JS.or_zero x) = false.
Proof. destruct x as [|z|s]; try reflexivity. cbn. now destruct (z =? 0). Qed.

Lemma baseParts_not_NaN v i :
  JS.isNaN (nth i (baseParts v) (JS.Num 0)) = false.
Proof.
  unfold baseParts, parseBase.
  generalize (JS.split "." (fst (split_version v))). intros l. revert i.
  induction l as [|c l IH]; intros [|i]; cbn [List.map nth]; auto.
  apply or_zero_not_NaN.
Qed.

(** *** The base stage *)

Lemma base_step_seq a b i :
  base_step (baseParts a) (baseParts b) i
  = seq_step numCmp (fun j => nth j (baseParts a) (JS.Num 0))
      (fun j => nth j (baseParts b) (JS.Num 0)) i.
Proof.
  unfold base_step, seq_step. apply num_tests_cmp; apply baseParts_not_NaN.
Qed.

Lemma baseCmp_seq a b N :
  (Nat.max (length (baseParts a)) (length (baseParts b)) <= N)%nat ->
  baseCmp a b
  = seq_cmp numCmp N 0 (fun j => nth j (baseParts a) (JS.Num 0))
      (fun j => nth j (baseParts b) (JS.Num 0)).
Proof.
  intros HN. unfold baseCmp, seq_cmp. f_equal.
  set (n := Nat.max _ _) in *.
  replace N with (n + (N - n))%nat by lia.
  rewrite for_loop_extend.
  - apply for_loop_ext. intros j _. apply base_step_seq.
  - intros j Hj. unfold seq_step.
    rewrite !nth_overflow by lia. reflexivity.
Qed.

Lemma baseCmp_comparator : Comparator baseCmp.
Proof.
  apply (comparator_of_seq baseCmp numCmp
           (fun a j => nth j (baseParts a) (JS.Num 0))
           (fun a => length (baseParts a))).
  - apply numCmp_comparator.
  - intros a b N HN. now apply baseCmp_seq.
Qed.

Lemma base_step_range pa pb i r :
  base_step pa pb i = Some r -> r = -1 \/ r = 1.
Proof.
  unfold base_step.
  destruct (JS.num_ltb _ _); [intros [= <-]; auto|].
  destruct (JS.num_ltb _ _); [intros [= <-]; auto|discriminate].
Qed.
(** *** The pre-release stage *)

Lemma fieldCmp_comparator : Comparator fieldCmp.
Proof.
  unfold fieldCmp. apply lexc_comparator; [|apply lexc_comparator].
  - apply (on_key_comparator Zcmp (fun p => if isNum p then 0 else 1)).
    apply Zcmp_comparator.
  - apply on_key_comparator, Zcmp_comparator.
  - apply strCmp_comparator.
Qed.

Lemma slotCmp_comparator : Comparator slotCmp.
Proof.
  unfold slotCmp. apply lexc_comparator.
  - apply on_key_comparator, Zcmp_comparator.
  - apply on_key_comparator, fieldCmp_comparator.
Qed.

(** A numeric field is read as a finite number and printed back as the
    field. *)
Lemma isNum_parse p :
  isNum p = true ->
  exists z, JS.parseInt p = JS.Num z /\ JS.ToString (JS.Num z) = p.
Proof.
  unfold isNum. destruct (JS.parseInt p) as [|z|s] eqn:E; cbn [JS.isNaN negb andb];
    [discriminate| |].
  - intros H. exists z. split; [reflexivity|]. now apply String.eqb_eq.
  - intros H. apply String.eqb_eq in H. subst p.
    destruct s; vm_compute in E; discriminate.
Qed.

(** The code's treatment of two present fields is [fieldCmp]. *)
Lemma pre_step_present pa pb i p q :
  nth_error pa i = Some p -> nth_error pb i = Some q ->
  pre_step pa pb i = (let r := fieldCmp p q in if r =? 0 then None else Some r).
Proof.
  intros Hp Hq. unfold pre_step. rewrite Hp, Hq.
  unfold fieldCmp, lexc, classCmp, on_key, numValue.
  destruct (isNum p) eqn:Ep, (isNum q) eqn:Eq; simpl; try reflexivity.
  - destruct (isNum_parse _ Ep) as (zp & Pp & Sp).
    destruct (isNum_parse _ Eq) as (zq & Pq & Sq).
    rewrite Pp, Pq. cbn [numMagnitude]. unfold JS.num_ltb, Zcmp.
    destruct (zp <? zq) eqn:E1; [reflexivity|].
    destruct (zq <? zp) eqn:E2; [reflexivity|]. simpl.
    assert (zp = zq) by lia. subst zq.
    assert (Hpq : p = q) by congruence.
    rewrite (proj2 (strCmp_eq0 p q) Hpq). reflexivity.
  - unfold strCmp.
    destruct (String.ltb p q); [reflexivity|].
    destruct (String.ltb q p); reflexivity.
Qed.

Lemma pre_step_seq pa pb i :
  (i < Nat.max (length pa) (length pb))%nat ->
  pre_step pa pb i = seq_step slotCmp (nth_error pa) (nth_error pb) i.
Proof.
  intros Hi.
  destruct (nth_error pa i) as [p|] eqn:Hp, (nth_error pb i) as [q|] eqn:Hq.
  - rewrite (pre_step_present _ _ _ _ _ Hp Hq).
    unfold seq_step, slotCmp, lexc, on_key. rewrite Hp, Hq. reflexivity.
  - unfold pre_step, seq_step, slotCmp, lexc, on_key. rewrite Hp, Hq. reflexivity.
  - unfold pre_step, seq_step, slotCmp, lexc, on_key. rewrite Hp, Hq. reflexivity.
  - apply nth_error_None in Hp, Hq. lia.
Qed.

Lemma preCmp_seq a b N :
  (Nat.max (length (preFields a)) (length (preFields b)) <= N)%nat ->
  preCmp a b
  = seq_cmp slotCmp N 0 (nth_error (preFields a)) (nth_error (preFields b)).
Proof.
  intros HN. unfold preCmp, seq_cmp. f_equal.
  set (n := Nat.max _ _) in *.
  replace N with (n + (N - n))%nat by lia.
  rewrite for_loop_extend.
  - apply for_loop_ext. intros j Hj. apply pre_step_seq. fold n. lia.
  - intros j Hj. unfold seq_step.
    rewrite (proj2 (nth_error_None (preFields a) j)) by lia.
    rewrite (proj2 (nth_error_None (preFields b) j)) by lia.
    reflexivity.
Qed.

Lemma preCmp_comparator : Comparator preCmp.
Proof.
  apply (comparator_of_seq preCmp slotCmp
           (fun a => nth_error (preFields a)) (fun a => length (preFields a))).
  - apply slotCmp_comparator.
  - intros a b N HN. now apply preCmp_seq.
Qed.

Lemma flagCmp_comparator : Comparator flagCmp.
Proof.
  apply (on_key_comparator Zcmp (fun v => if hasPrerelease v then 0 else 1)).
  apply Zcmp_comparator.
Qed.

(** *** The comparator as a lexicographic product of its stages *)

Lemma compareVersions_stages a b :
  compareVersions a b = lexc baseCmp (lexc flagCmp preCmp) a b.
Proof.
  unfold compareVersions, lexc, baseCmp, flagCmp, preCmp, preFields,
    prerelease, hasPrerelease, baseParts.
  destruct (split_version a) as [aBase aPrerelease].
  destruct (split_version b) as [bBase bPrerelease]. simpl.
  destruct (JS.for_loop _ 0 (base_step _ _)) as [r|] eqn:E.
  - apply for_loop_Some in E. destruct E as (j & _ & E).
    apply base_step_range in E. simpl. destruct E; subst; reflexivity.
  - simpl.
    destruct aPrerelease as [[|c p]|], bPrerelease as [[|d q]|];
      reflexivity.
Qed.

Lemma compareVersions_comparator : Comparator compareVersions.
Proof.
  eapply comparator_ext; [intros a b; symmetry; apply compareVersions_stages|].
  apply lexc_comparator; [apply baseCmp_comparator|].
  apply lexc_comparator; [apply flagCmp_comparator|apply preCmp_comparator].
Qed.
(** *** Numeric fields are the canonical decimal numerals *)

Lemma digit_of_char_spec c d :
  JS.digit_of_char c = Some d ->
  JS.is_white_space c = false /\ Ascii.eqb c "-" = false
  /\ Ascii.eqb c "+" = false
  /\ (forall u, NilEmpty.string_of_uint (d u)
                = String c (NilEmpty.string_of_uint u))
  /\ (forall u, d u <> Decimal.Nil)
  /\ (if Ascii.eqb c "0" then d = Decimal.D0
      else forall u, Decimal.nzhead (d u) = d u).
Proof.
  destruct c as [[] [] [] [] [] [] [] []]; simpl; try discriminate;
    intros [= <-]; repeat split; try reflexivity; try discriminate.
Qed.

Lemma string_of_leading_digits s :
  all_digits s = true -> NilEmpty.string_of_uint (JS.leading_digits s) = s.
Proof.
  induction s as [|c s IH]; simpl; [reflexivity|].
  destruct (JS.digit_of_char c) as [d|] eqn:E; [|discriminate].
  simpl. intros H. destruct (digit_of_char_spec _ _ E) as (_ & _ & _ & Hs & _).
  rewrite Hs, IH by assumption. reflexivity.
Qed.

Lemma all_digits_string_of_uint u :
  all_digits (NilEmpty.string_of_uint u) = true.
Proof. induction u; simpl; auto. Qed.

Lemma canonicalNat_all_digits s : canonicalNat s = true -> all_digits s = true.
Proof.
  destruct s as [|c r]; simpl; [discriminate|].
  destruct (Ascii.eqb_spec c "0") as [->|_]; [|tauto].
  intros H. apply String.eqb_eq in H. subst r. reflexivity.
Qed.

Lemma canonicalNat_unorm s :
  canonicalNat s = true ->
  JS.leading_digits s <> Decimal.Nil
  /\ Decimal.unorm (JS.leading_digits s) = JS.leading_digits s
  /\ (String.eqb s "0" = false ->
      Decimal.nzhead (JS.leading_digits s) = JS.leading_digits s).
Proof.
  destruct s as [|c r]; [discriminate|]. intros H.
  pose proof (canonicalNat_all_digits _ H) as Hd. simpl in H, Hd |- *.
  destruct (JS.digit_of_char c) as [d|] eqn:E; [|discriminate].
  destruct (digit_of_char_spec _ _ E) as (_ & _ & _ & _ & Hn & Hz).
  split; [apply Hn|].
  destruct (Ascii.eqb_spec c "0") as [->|Hc].
  - apply String.eqb_eq in H. subst r d. simpl. split; [reflexivity|discriminate].
  - assert (Hh : Decimal.nzhead (d (JS.leading_digits r)) = d (JS.leading_digits r))
      by apply Hz.
    split; [|intros _; exact Hh].
    unfold Decimal.unorm. rewrite Hh.
    destruct (d (JS.leading_digits r)) eqn:Ed; try reflexivity.
    exfalso. eapply Hn; eassumption.
Qed.

Lemma canonicalNat_canonicalInt s : canonicalNat s = true -> canonicalInt s = true.
Proof.
  destruct s as [|c r]; [discriminate|]. intros H.
  pose proof (canonicalNat_all_digits _ H) as Hd. simpl in Hd.
  unfold canonicalInt.
  destruct (JS.digit_of_char c) as [d|] eqn:E; [|discriminate].
  destruct (digit_of_char_spec _ _ E) as (_ & -> & _). exact H.
Qed.

Lemma canonicalNat_string_of_uint u :
  Decimal.unorm u = u ->
  canonicalNat (NilZero.string_of_uint u) = true
  /\ (u <> Decimal.zero -> String.eqb (NilZero.string_of_uint u) "0" = false).
Proof.
  intros Hu.
  assert (Hnil : u <> Decimal.Nil) by (rewrite <- Hu; apply unorm_nonnil).
  destruct u; try congruence;
    try (split; [apply (all_digits_string_of_uint (_ u))|reflexivity]).
  rewrite unorm_D0 in Hu. unfold Decimal.unorm in Hu.
  destruct (Decimal.nzhead u) eqn:En; try discriminate.
  - injection Hu as <-. split; [reflexivity|]. intros H. now elim H.
  - exfalso. apply (nzhead_nonzero u u). congruence.
Qed.

Lemma unorm_to_uint q : Decimal.unorm (Pos.to_uint q) = Pos.to_uint q.
Proof.
  rewrite <- (DecimalPos.Unsigned.to_of (Pos.to_uint q)).
  rewrite DecimalPos.Unsigned.of_to. reflexivity.
Qed.

(** The decimal expansion of an integer is always in canonical form. *)
Lemma canonicalInt_decimal z : canonicalInt (JS.decimal z) = true.
Proof.
  destruct z as [|q|q]; [reflexivity| |].
  - apply canonicalNat_canonicalInt.
    apply (canonicalNat_string_of_uint (Pos.to_uint q)), unorm_to_uint.
  - change (JS.decimal (Z.neg q))
      with (String "-" (NilZero.string_of_uint (Pos.to_uint q))).
    unfold canonicalInt.
    change (Ascii.eqb "-" "-") with true. cbv iota.
    destruct (canonicalNat_string_of_uint (Pos.to_uint q) (unorm_to_uint q))
      as [-> H].
    rewrite H by apply DecimalPos.Unsigned.to_uint_nonzero. reflexivity.
Qed.

Lemma string_of_uint_nonnil u :
  u <> Decimal.Nil -> NilZero.string_of_uint u = NilEmpty.string_of_uint u.
Proof. destruct u; intros; try reflexivity; congruence. Qed.

Lemma digits_value sign u :
  u <> Decimal.Nil ->
  JS.number_of_digits sign u = JS.of_Z (sign * Z.of_uint u).
Proof. destruct u; intros; try reflexivity; congruence. Qed.

Lemma parseInt_canonicalNat s :
  canonicalNat s = true ->
  JS.parseInt s = JS.of_Z (Z.of_uint (JS.leading_digits s)).
Proof.
  intros H. destruct (canonicalNat_unorm _ H) as (Hn & _).
  pose proof (canonicalNat_all_digits _ H) as Hd.
  destruct s as [|c r]; [discriminate|]. simpl in Hd.
  destruct (JS.digit_of_char c) as [d|] eqn:E; [|discriminate].
  destruct (digit_of_char_spec _ _ E) as (Hw & Hm & Hp & _).
  unfold JS.parseInt. simpl JS.trim_start. rewrite Hw, Hm, Hp.
  cbv beta iota zeta. rewrite digits_value by assumption.
  f_equal. apply Z.mul_1_l.
Qed.

Lemma parseInt_minus r :
  JS.parseInt (String "-" r)
  = JS.number_of_digits (-1) (JS.leading_digits r).
Proof. reflexivity. Qed.

(** A canonical numeral is the decimal expansion of its value. *)
Lemma decimal_decimalValue p :
  canonicalInt p = true -> JS.decimal (decimalValue p) = p.
Proof.
  destruct p as [|c r]; [discriminate|]. unfold canonicalInt, decimalValue.
  destruct (Ascii.eqb_spec c "-") as [->|Hc].
  - intros H. apply andb_true_iff in H. destruct H as [Hr Hz].
    apply negb_true_iff in Hz.
    destruct (canonicalNat_unorm _ Hr) as (Hn & _ & Hh). specialize (Hh Hz).
    pose proof (string_of_leading_digits _ (canonicalNat_all_digits _ Hr)) as Hs.
    set (u := JS.leading_digits r) in *.
    replace (- Z.of_uint u) with (Z.of_int (Decimal.Neg u))
      by (simpl Z.of_int; lia).
    unfold JS.decimal. rewrite DecimalZ.to_of. unfold Decimal.norm.
    rewrite Hh.
    destruct u; try congruence; simpl; simpl in Hs; congruence.
  - intros H.
    destruct (canonicalNat_unorm _ H) as (Hn & Hu & _).
    pose proof (string_of_leading_digits _ (canonicalNat_all_digits _ H)) as Hs.
    set (u := JS.leading_digits (String c r)) in *.
    change (Z.of_uint u) with (Z.of_int (Decimal.Pos u)).
    unfold JS.decimal. rewrite DecimalZ.to_of. unfold Decimal.norm.
    rewrite Hu. simpl. rewrite string_of_uint_nonnil by assumption. exact Hs.
Qed.

Lemma parseInt_canonicalInt p :
  canonicalInt p = true -> JS.parseInt p = JS.of_Z (decimalValue p).
Proof.
  destruct p as [|c r]; [discriminate|]. unfold canonicalInt, decimalValue.
  destruct (Ascii.eqb_spec c "-") as [->|Hc].
  - intros H. apply andb_true_iff in H. destruct H as [Hr _].
    destruct (canonicalNat_unorm _ Hr) as (Hn & _).
    rewrite parseInt_minus, digits_value by assumption. f_equal. all: lia.
  - apply parseInt_canonicalNat.
Qed.

(** Every canonical numeral of magnitude below [2^53] is numeric. *)
Lemma isNum_of_canonicalInt p :
  canonicalInt p = true -> Z.abs (decimalValue p) < 2 ^ 53 -> isNum p = true.
Proof.
  intros Hc Hs. unfold isNum.
  rewrite (parseInt_canonicalInt _ Hc), (of_Z_safe _ Hs).
  rewrite (ToString_safe _ Hs), (decimal_decimalValue _ Hc).
  cbn [JS.isNaN negb andb]. apply String.eqb_refl.
Qed.

(** *** Exponent notation is never read back as the number printed *)

Lemma digit_value c d :
  JS.digit_of_char c = Some d -> 0 <= Z.of_uint (d Decimal.Nil) <= 9.
Proof.
  destruct c as [[] [] [] [] [] [] [] []]; simpl; try discriminate;
    intros [= <-]; cbn; lia.
Qed.

Lemma decimal_head c :
  0 <= c ->
  exists d rest D, JS.decimal c = String d rest /\ JS.digit_of_char d = Some D.
Proof.
  intros Hc. destruct c as [|q|q]; [|clear Hc|lia].
  - exists "0"%char, EmptyString, Decimal.D0. split; reflexivity.
  - unfold JS.decimal. cbn [Z.to_int NilZero.string_of_int].
    pose proof (DecimalPos.Unsigned.to_uint_nonnil q) as Hn.
    destruct (Pos.to_uint q) as [|u|u|u|u|u|u|u|u|u|u]; [congruence|..];
      cbn [NilZero.string_of_uint NilEmpty.string_of_uint];
      eexists _, _, _; split; reflexivity.
Qed.

Lemma parseInt_one_digit d D T :
  JS.digit_of_char d = Some D -> JS.leading_digits T = Decimal.Nil ->
  JS.parseInt (String d T) = JS.Num (Z.of_uint (D Decimal.Nil))
  /\ JS.parseInt (String "-" (String d T))
     = JS.Num (- Z.of_uint (D Decimal.Nil)).
Proof.
  intros Hd HT.
  destruct (digit_of_char_spec _ _ Hd) as (Hw & Hm & Hp & _ & Hn & _).
  pose proof (digit_value _ _ Hd) as Hv.
  assert (Hl : JS.leading_digits (String d T) = D Decimal.Nil).
  { cbn [JS.leading_digits]. now rewrite Hd, HT. }
  split.
  - unfold JS.parseInt. cbn [JS.trim_start]. rewrite Hw, Hm, Hp.
    cbv beta iota zeta. rewrite Hl, digits_value by apply Hn.
    rewrite of_Z_safe by lia. f_equal; lia.
  - rewrite parseInt_minus, Hl, digits_value by apply Hn.
    rewrite of_Z_safe by lia. f_equal; lia.
Qed.

Lemma exponent_form_parse s n z :
  0 <= s ->
  JS.parseInt (JS.exponent_form s n) = JS.Num z
  \/ JS.parseInt (String "-" (JS.exponent_form s n)) = JS.Num z ->
  Z.abs z <= 9.
Proof.
  intros Hs. destruct (decimal_head s Hs) as (d & rest & D & E & Hd).
  unfold JS.exponent_form. rewrite E.
  pose proof (digit_value _ _ Hd) as Hv.
  assert (HT : JS.leading_digits
                 ((match rest with
                   | EmptyString => EmptyString
                   | String _ _ => String "." rest
                   end) ++ "e+" ++ JS.decimal (n - 1)) = Decimal.Nil).
  { destruct rest; reflexivity. }
  destruct (parseInt_one_digit d D _ Hd HT) as [H1 H2].
  rewrite H1, H2. intros [[= <-]|[= <-]]; lia.
Qed.

(** What [String] prints for a finite number is either the decimal
    expansion of an integer that denotes the number, or exponent notation,
    used only from [2^53] on. *)
Lemma ToString_cases z :
  (exists c, JS.ToString (JS.Num z) = JS.decimal c
             /\ (c = z \/ JS.of_Z c = JS.Num z))
  \/ (2 ^ 53 <= Z.abs z
      /\ exists s n, 0 <= s
                     /\ (JS.ToString (JS.Num z) = JS.exponent_form s n
                         \/ JS.ToString (JS.Num z)
                            = String "-" (JS.exponent_form s n))).
Proof.
  assert (Hpos : forall v, 0 <= v ->
            (exists c, JS.digits_of v = JS.decimal c /\ 0 <= c
                       /\ (c = v \/ JS.of_Z c = JS.Num v))
            \/ (2 ^ 53 <= v
                /\ exists s n, 0 <= s /\ JS.digits_of v = JS.exponent_form s n)).
  { intros v Hv. unfold JS.digits_of.
    destruct (JS.shortest v _) as [c m] eqn:E.
    pose proof (shortest_spec _ _ _ _ E) as Hc.
    destruct (c <? 10 ^ 21) eqn:Ec.
    - left. exists c. split; [reflexivity|]. split; [|exact Hc].
      destruct Hc as [->|Hc]; [assumption|].
      destruct (Z.eq_dec v 0) as [->|Hv0].
      + destruct (Z.lt_ge_cases (Z.abs c) (2 ^ 53)) as [Hs|Hl].
        * rewrite of_Z_safe in Hc by assumption. injection Hc as ->. lia.
        * pose proof (of_Z_large _ _ Hl Hc). lia.
      + pose proof (of_Z_sign _ _ Hc). lia.
    - right. apply Z.ltb_ge in Ec.
      assert (H21 : 2 ^ 53 <= 10 ^ 21) by (vm_compute; discriminate).
      split.
      + destruct Hc as [->|Hc]; [lia|].
        assert (Hl : 2 ^ 53 <= Z.abs c) by lia.
        pose proof (of_Z_large _ _ Hl Hc). lia.
      + eexists _, _. split; [|reflexivity].
        apply Z.div_pos; [lia|]. apply Z.pow_pos_nonneg; lia. }
  cbn [JS.ToString]. destruct (z <? 0) eqn:Ez.
  - apply Z.ltb_lt in Ez.
    destruct (Hpos (- z)) as [(c & E & Hc0 & Hc)|(Hl & s & n & Hs & E)]; [lia| |].
    + left. exists (- c). rewrite E. split.
      * assert (0 < c).
        { destruct Hc as [->|Hc]; [lia|]. pose proof (of_Z_sign _ _ Hc). lia. }
        destruct c as [|q|q]; try lia. reflexivity.
      * destruct Hc as [->|Hc]; [left; lia|]. right.
        unfold JS.of_Z in *. rewrite Z.abs_opp.
        destruct (JS.round_nat (Z.abs c) <? 2 ^ 1024); [|discriminate].
        injection Hc as Hc. f_equal. rewrite Z.sgn_opp. lia.
    + right. split; [lia|]. exists s, n. split; [assumption|]. right.
      now rewrite E.
  - apply Z.ltb_ge in Ez.
    destruct (Hpos z Ez) as [(c & E & _ & Hc)|(Hl & s & n & Hs & E)].
    + left. exists c. auto.
    + right. split; [lia|]. exists s, n. auto.
Qed.

(** A numeric field is the canonical numeral of an integer that denotes
    the number read. *)
Lemma isNum_canonicalInt p : isNum p = true -> canonicalInt p = true.
Proof.
  intros H. destruct (isNum_parse _ H) as (z & Hp & Hs).
  destruct (ToString_cases z) as [(c & E & _)|(Hl & s & n & Hs0 & E)].
  - rewrite <- Hs, E. apply canonicalInt_decimal.
  - exfalso. rewrite Hs in E.
    assert (Z.abs z <= 9).
    { apply (exponent_form_parse s n z Hs0).
      destruct E as [E|E]; rewrite <- E; auto. }
    assert (9 < 2 ^ 53) by (vm_compute; reflexivity). lia.
Qed.

Lemma isNum_value p :
  isNum p = true ->
  exists z, JS.parseInt p = JS.Num z /\ JS.of_Z (decimalValue p) = JS.Num z
            /\ JS.ToString (JS.Num z) = p.
Proof.
  intros H. destruct (isNum_parse _ H) as (z & Hp & Hs). exists z.
  rewrite <- (parseInt_canonicalInt _ (isNum_canonicalInt _ H)). auto.
Qed.

(** Two numeric fields are ordered by the numbers read exactly as by the
    integers written: rounding is monotone, and two numeric fields read as
    the same number are the same field. *)
Lemma isNum_compare x y :
  isNum x = true -> isNum y = true ->
  JS.num_ltb (JS.parseInt x) (JS.parseInt y)
  = (decimalValue x <? decimalValue y).
Proof.
  intros Hx Hy.
  destruct (isNum_value _ Hx) as (zx & Px & Rx & Sx).
  destruct (isNum_value _ Hy) as (zy & Py & Ry & Sy).
  rewrite Px, Py. cbn [JS.num_ltb].
  destruct (decimalValue x <? decimalValue y) eqn:E.
  - apply Z.ltb_lt in E. apply Z.ltb_lt.
    assert (zx <= zy) by (apply (of_Z_mono _ _ _ _ (Z.lt_le_incl _ _ E) Rx Ry)).
    assert (zx <> zy); [|lia].
    intros ->. assert (x = y) by congruence. subst. lia.
  - apply Z.ltb_ge in E. apply Z.ltb_ge.
    apply (of_Z_mono _ _ _ _ E Ry Rx).
Qed.
(** *** Consequences for [compareVersions] *)

Lemma for_loop_None {A} n i (body : nat -> option A) :
  (forall j, (i <= j < i + n)%nat -> body j = None) ->
  JS.for_loop n i body = None.
Proof.
  revert i. induction n as [|n IH]; intros i H; simpl; [reflexivity|].
  rewrite H by lia. apply IH. intros j Hj. apply H. lia.
Qed.

Lemma for_loop_shift {A} n i (body : nat -> option A) :
  JS.for_loop n (S i) body = JS.for_loop n i (fun j => body (S j)).
Proof.
  revert i. induction n as [|n IH]; intros i; simpl; [reflexivity|].
  destruct (body (S i)); [reflexivity|]. apply IH.
Qed.

Lemma baseCmp_sameBase a b : sameBase a b -> baseCmp a b = 0.
Proof.
  intros H. unfold baseCmp. rewrite for_loop_None; [reflexivity|].
  intros j _. unfold base_step. rewrite (H j), num_ltb_irrefl.
  reflexivity.
Qed.

Lemma compareVersions_sameBase a b :
  sameBase a b -> compareVersions a b = lexc flagCmp preCmp a b.
Proof.
  intros H. rewrite compareVersions_stages. unfold lexc at 1.
  rewrite (baseCmp_sameBase _ _ H). reflexivity.
Qed.

Lemma sameBase_sym a b : sameBase a b -> sameBase b a.
Proof. intros H i. symmetry. apply H. Qed.

Lemma preFields_nil v : hasPrerelease v = false -> preFields v = [].
Proof. unfold preFields, prerelease, hasPrerelease. now intros ->. Qed.

(** The pre-release loop computes the field-by-field rule. *)
Lemma pre_loop_compareFields xs ys :
  default 0 (JS.for_loop (Nat.max (length xs) (length ys)) 0 (pre_step xs ys))
  = compareFieldsBy printedField xs ys.
Proof.
  revert ys. induction xs as [|x xs IH]; intros [|y ys]; try reflexivity.
  specialize (IH ys).
  change (Nat.max (length (x :: xs)) (length (y :: ys)))
    with (S (Nat.max (length xs) (length ys))).
  cbn [JS.for_loop]. rewrite for_loop_shift.
  change (fun j => pre_step (x :: xs) (y :: ys) (S j)) with (pre_step xs ys).
  unfold pre_step at 1. cbn [nth_error compareFieldsBy].
  unfold printedField.
  destruct (isNum x) eqn:Ex, (isNum y) eqn:Ey; cbn [andb negb]; try reflexivity.
  - rewrite (isNum_compare _ _ Ex Ey), (isNum_compare _ _ Ey Ex).
    destruct (decimalValue x <? decimalValue y); [reflexivity|].
    destruct (decimalValue y <? decimalValue x); [reflexivity|]. exact IH.
  - destruct (String.ltb x y); [reflexivity|].
    destruct (String.ltb y x); [reflexivity|]. exact IH.
Qed.

Lemma baseParts_lenient v : baseParts v = lenientParts v.
Proof.
  unfold baseParts, lenientParts, parseBase. apply map_ext. intros c.
  destruct (JS.parseInt c) as [|z|n]; try reflexivity.
  cbn [JS.or_zero]. destruct (z =? 0) eqn:E; [|reflexivity].
  apply Z.eqb_eq in E. now subst.
Qed.

Lemma hasPrerelease_prerelease v :
  hasPrerelease v = (if prerelease v is Some _ then true else false).
Proof.
  unfold prerelease, hasPrerelease.
  destruct (snd (split_version v)) as [[|c p]|]; reflexivity.
Qed.

Lemma seq_cmp_zero {A} (c : A -> A -> Z) n i f g :
  seq_cmp c n i f g = 0 ->
  forall j, (i <= j < i + n)%nat -> c (f j) (g j) = 0.
Proof.
  revert i. induction n as [|n IH]; intros i H j Hj; [lia|].
  rewrite seq_cmp_S in H. unfold lexc, on_key in H.
  destruct (c (f i) (g i) =? 0) eqn:E.
  - apply Z.eqb_eq in E. destruct (Nat.eq_dec j i) as [->|Hne]; [assumption|].
    apply (IH (S i)); [assumption|lia].
  - apply Z.eqb_neq in E. congruence.
Qed.

(** The base loop runs to its end exactly when the bases are equal
    position by position. *)
Lemma baseCmp_zero_sameBase a b : baseCmp a b = 0 -> sameBase a b.
Proof.
  intros H i.
  set (N := Nat.max (Nat.max (length (baseParts a)) (length (baseParts b))) (S i)).
  rewrite (baseCmp_seq a b N) in H by lia.
  apply numCmp_eq0. apply (seq_cmp_zero _ _ _ _ _ H i). lia.
Qed.

Lemma pre_step_range pa pb i r :
  pre_step pa pb i = Some r -> r = -1 \/ r = 1.
Proof.
  unfold pre_step.
  destruct (nth_error pa i) as [p|]; [|intros [= <-]; auto].
  destruct (nth_error pb i) as [q|]; [|intros [= <-]; auto].
  destruct (isNum p), (isNum q); cbn [andb negb];
    repeat match goal with
           | |- context [if ?b then _ else _] => destruct b
           end;
    intros [= <-]; auto.
Qed.

(** [compareVersions] always answers, with -1, 0 or 1. *)
Lemma compareVersions_range a b :
  compareVersions a b = -1 \/ compareVersions a b = 0 \/ compareVersions a b = 1.
Proof.
  unfold compareVersions.
  destruct (split_version a) as [aBase aPrerelease].
  destruct (split_version b) as [bBase bPrerelease].
  destruct (JS.for_loop _ 0 (base_step _ _)) as [r|] eqn:E.
  - apply for_loop_Some in E. destruct E as (j & _ & E).
    apply base_step_range in E. tauto.
  - destruct (negb _ && _); [auto|].
    destruct (_ && negb _); [auto|].
    destruct (negb _ && negb _); [auto|].
    destruct (JS.for_loop _ 0 (pre_step _ _)) as [r|] eqn:E'; [|auto].
    apply for_loop_Some in E'. destruct E' as (j & _ & E').
    apply pre_step_range in E'. tauto.
Qed.

(** C4. For every pair of version strings, swapping the arguments negates
    the result of [compareVersions]; every version compares equal to
    itself. *)
Theorem compareVersions_antisymmetric :
  forall a b : string,
    compareVersions a b = - compareVersions b a /\ compareVersions a a = 0.
Proof.
  intros a b. split.
  - apply (cmp_antisym _ compareVersions_comparator).
  - apply (comparator_refl _ compareVersions_comparator).
Qed.

(** *** What [split] keeps of a version *)

Lemma split_pieces sep s :
  List.Forall (fun piece => includes sep piece = false) (JS.split sep s).
Proof.
  induction s as [|c s IH]; cbn [JS.split].
  - repeat constructor.
  - destruct (Ascii.eqb c sep) eqn:E.
    + constructor; [reflexivity|assumption].
    + destruct (JS.split sep s) as [|piece rest].
      * repeat constructor. cbn [includes]. now rewrite E.
      * inversion IH as [|? ? Hp Hr]; subst.
        constructor; [|assumption]. cbn [includes]. now rewrite E.
Qed.

Lemma split_single sep s : includes sep s = false -> JS.split sep s = [s].
Proof.
  induction s as [|c s IH]; cbn [JS.split includes]; [reflexivity|].
  destruct (Ascii.eqb c sep); [discriminate|]. cbn [orb].
  intros H. now rewrite (IH H).
Qed.

Lemma split_at_sep sep s1 s2 :
  includes sep s1 = false ->
  JS.split sep (s1 ++ String sep s2) = s1 :: JS.split sep s2.
Proof.
  induction s1 as [|c s1 IH]; simpl.
  - intros _. now rewrite Ascii.eqb_refl.
  - destruct (Ascii.eqb c sep); [discriminate|]. simpl.
    intros H. now rewrite (IH H).
Qed.

Lemma split_nonempty sep s : JS.split sep s <> [].
Proof.
  destruct s as [|c s]; cbn [JS.split]; [discriminate|].
  destruct (Ascii.eqb c sep); [discriminate|].
  destruct (JS.split sep s); discriminate.
Qed.

(** A version with a hyphen: the base is the text before the first
    hyphen, the suffix kept is the text between the first hyphen and the
    next one. *)
Lemma split_version_hyphen base rest :
  includes "-" base = false ->
  split_version (base ++ String "-" rest)
  = (base, Some (nth 0 (JS.split "-" rest) EmptyString)).
Proof.
  intros H. unfold split_version, JS.split_limit.
  rewrite (split_at_sep _ _ _ H).
  pose proof (split_nonempty "-" rest).
  destruct (JS.split "-" rest) as [|p ps]; [congruence|]. reflexivity.
Qed.

Lemma split_version_no_hyphen v :
  includes "-" v = false -> split_version v = (v, None).
Proof.
  intros H. unfold split_version, JS.split_limit.
  now rewrite (split_single _ _ H).
Qed.

Lemma kept_suffix_no_hyphen v p :
  snd (split_version v) = Some p -> includes "-" p = false.
Proof.
  unfold split_version, JS.split_limit. cbn [snd]. intros H.
  apply nth_error_In in H.
  assert (Hin : In p (JS.split "-" v)).
  { rewrite <- (firstn_skipn 2 (JS.split "-" v)). apply in_or_app. now left. }
  pose proof (split_pieces "-" v) as Hall.
  rewrite List.Forall_forall in Hall. now apply Hall.
Qed.
Lemma split_inj sep p q : JS.split sep p = JS.split sep q -> p = q.
Proof.
  revert q. induction p as [|c p IH]; intros [|d q]; cbn [JS.split].
  - reflexivity.
  - pose proof (split_nonempty sep q).
    destruct (Ascii.eqb d sep); [intros [= H']; congruence|].
    destruct (JS.split sep q); discriminate.
  - pose proof (split_nonempty sep p).
    destruct (Ascii.eqb c sep); [intros [= H']; congruence|].
    destruct (JS.split sep p); discriminate.
  - pose proof (split_nonempty sep p). pose proof (split_nonempty sep q).
    destruct (Ascii.eqb_spec c sep) as [->|Hc],
      (Ascii.eqb_spec d sep) as [->|Hd].
    + intros [= H']. f_equal. now apply IH.
    + destruct (JS.split sep q); discriminate.
    + destruct (JS.split sep p); discriminate.
    + destruct (JS.split sep p) as [|pp pr] eqn:Ep; [congruence|].
      destruct (JS.split sep q) as [|qp qr] eqn:Eq; [congruence|].
      intros [= -> -> ->]. f_equal. apply IH. now rewrite Eq.
Qed.

Lemma fieldCmp_zero p q : fieldCmp p q = 0 <-> p = q.
Proof.
  split.
  - unfold fieldCmp. rewrite !lexc_zero. intros (_ & _ & H).
    now apply strCmp_eq0.
  - intros ->. apply (comparator_refl _ fieldCmp_comparator).
Qed.

Lemma slotCmp_zero x y : slotCmp x y = 0 <-> x = y.
Proof.
  split.
  - unfold slotCmp. rewrite lexc_zero. unfold on_key.
    destruct x as [p|], y as [q|]; cbn [default]; intros [H1 H2];
      try reflexivity; try (vm_compute in H1; discriminate).
    f_equal. now apply fieldCmp_zero.
  - intros ->. apply (comparator_refl _ slotCmp_comparator).
Qed.

Lemma preCmp_zero a b : preCmp a b = 0 <-> preFields a = preFields b.
Proof.
  split.
  - intros H. apply nth_error_ext. intros j.
    set (N := Nat.max (Nat.max (length (preFields a)) (length (preFields b))) (S j)).
    rewrite (preCmp_seq a b N) in H by lia.
    apply slotCmp_zero. apply (seq_cmp_zero _ _ _ _ _ H j). lia.
  - intros E.
    rewrite (preCmp_seq a b (Nat.max (length (preFields a)) (length (preFields b))))
      by lia.
    rewrite E. apply (comparator_refl _ (seq_cmp_comparator slotCmp _ 0 slotCmp_comparator)).
Qed.

Lemma flagCmp_zero a b : flagCmp a b = 0 <-> hasPrerelease a = hasPrerelease b.
Proof.
  unfold flagCmp. destruct (hasPrerelease a), (hasPrerelease b);
    vm_compute; split; congruence.
Qed.

Lemma prerelease_eq_iff a b :
  prerelease a = prerelease b
  <-> hasPrerelease a = hasPrerelease b /\ preFields a = preFields b.
Proof.
  split.
  - intros E. unfold preFields. rewrite !hasPrerelease_prerelease, E. auto.
  - unfold preFields, prerelease, hasPrerelease. intros [Hh Hf]. rewrite <- Hh in *.
    destruct (JS.truthy (snd (split_version a))) eqn:Ea; [|reflexivity].
    destruct (snd (split_version a)) as [p|]; [|discriminate].
    destruct (JS.truthy (snd (split_version b))) eqn:Eb; [|discriminate].
    destruct (snd (split_version b)) as [q|]; [|discriminate].
    f_equal. now apply (split_inj "."%char).
Qed.

Lemma compareVersions_zero_iff a b :
  compareVersions a b = 0 <-> sameBase a b /\ prerelease a = prerelease b.
Proof.
  rewrite compareVersions_stages, !lexc_zero, flagCmp_zero, preCmp_zero,
    prerelease_eq_iff.
  split.
  - intros (Hb & Hf & Hp). split; [now apply baseCmp_zero_sameBase|auto].
  - intros (Hb & Hf & Hp). split; [now apply baseCmp_sameBase|auto].
Qed.

Lemma seq_cmp_first {A} (c : A -> A -> Z) n i0 f g i :
  (forall j, (i0 <= j < i)%nat -> c (f j) (g j) = 0) ->
  (i0 <= i < i0 + n)%nat ->
  c (f i) (g i) <> 0 ->
  seq_cmp c n i0 f g = c (f i) (g i).
Proof.
  revert i0. induction n as [|n IH]; intros i0 Hz Hi Hne; [lia|].
  rewrite seq_cmp_S. unfold lexc, on_key.
  destruct (Nat.eq_dec i i0) as [->|Hd].
  - apply Z.eqb_neq in Hne. now rewrite Hne.
  - rewrite (Hz i0) by lia. cbn [Z.eqb]. apply IH; [|lia|assumption].
    intros j Hj. apply Hz. lia.
Qed.

(** *** The suffix of the design document and the suffix kept *)

Lemma afterFirstHyphen_None v :
  afterFirstHyphen v = None -> includes "-" v = false.
Proof.
  induction v as [|c v IH]; cbn [afterFirstHyphen includes]; [reflexivity|].
  destruct (Ascii.eqb c "-"); [discriminate|]. exact IH.
Qed.

Lemma afterFirstHyphen_Some v s :
  afterFirstHyphen v = Some s ->
  exists base, v = (base ++ String "-" s)%string /\ includes "-" base = false.
Proof.
  induction v as [|c v IH]; cbn [afterFirstHyphen]; [discriminate|].
  destruct (Ascii.eqb_spec c "-") as [->|Hc].
  - intros [= ->]. exists EmptyString. split; reflexivity.
  - intros H. destruct (IH H) as (base & -> & Hb).
    exists (String c base). split; [reflexivity|].
    cbn [includes]. apply Ascii.eqb_neq in Hc. now rewrite Hc.
Qed.

(** Without a hyphen nothing is kept; with one, the text up to the next
    hyphen is. *)
Lemma kept_none v : afterFirstHyphen v = None -> snd (split_version v) = None.
Proof.
  intros H. now rewrite (split_version_no_hyphen _ (afterFirstHyphen_None _ H)).
Qed.

Lemma kept_piece v s :
  afterFirstHyphen v = Some s ->
  snd (split_version v) = Some (nth 0 (JS.split "-" s) EmptyString).
Proof.
  intros H. destruct (afterFirstHyphen_Some _ _ H) as (base & -> & Hb).
  now rewrite (split_version_hyphen _ _ Hb).
Qed.

Lemma kept_whole v s :
  afterFirstHyphen v = Some s -> includes "-" s = false ->
  snd (split_version v) = Some s.
Proof.
  intros H Hs. rewrite (kept_piece _ _ H). now rewrite (split_single _ _ Hs).
Qed.

(** The piece kept is empty exactly when the suffix is empty or starts
    with a hyphen. *)
Lemma kept_piece_truthy s :
  JS.truthy (Some (nth 0 (JS.split "-" s) EmptyString))
  = match s with
    | EmptyString => false
    | String c _ => negb (Ascii.eqb c "-")
    end.
Proof.
  destruct s as [|c r]; [reflexivity|]. cbn [JS.split].
  destruct (Ascii.eqb c "-"); [reflexivity|].
  pose proof (split_nonempty "-" r).
  destruct (JS.split "-" r); [congruence|reflexivity].
Qed.

(** With equal bases, a version without suffix kept is above one with a
    suffix kept and equal to one without. *)
Lemma release_rule a b :
  sameBase a b -> hasPrerelease a = false ->
  compareVersions a b = (if hasPrerelease b then 1 else 0)
  /\ compareVersions b a = (if hasPrerelease b then -1 else 0).
Proof.
  intros Hb Ha.
  rewrite (compareVersions_sameBase _ _ Hb).
  rewrite (compareVersions_sameBase _ _ (sameBase_sym _ _ Hb)).
  unfold lexc, flagCmp, preCmp. rewrite Ha, (preFields_nil _ Ha).
  destruct (hasPrerelease b) eqn:E.
  - split; reflexivity.
  - rewrite (preFields_nil _ E). split; reflexivity.
Qed.

(** With equal bases, the first position at which the fields of the two
    suffixes differ decides. *)
Lemma first_field_decides a b pre p q xs ys :
  sameBase a b ->
  preFields a = (pre ++ p :: xs)%list -> preFields b = (pre ++ q :: ys)%list ->
  fieldCmp p q <> 0 -> compareVersions a b = fieldCmp p q.
Proof.
  intros Hb Ea Eb Hne. rewrite (compareVersions_sameBase _ _ Hb). unfold lexc.
  assert (Ha : hasPrerelease a = true).
  { destruct (hasPrerelease a) eqn:E; [reflexivity|].
    rewrite (preFields_nil _ E) in Ea. destruct pre; discriminate. }
  assert (Hq : hasPrerelease b = true).
  { destruct (hasPrerelease b) eqn:E; [reflexivity|].
    rewrite (preFields_nil _ E) in Eb. destruct pre; discriminate. }
  unfold flagCmp. rewrite Ha, Hq. change (Zcmp 0 0 =? 0) with true. cbv iota.
  rewrite (preCmp_seq a b (Nat.max (length (preFields a)) (length (preFields b))))
    by lia.
  rewrite (seq_cmp_first slotCmp _ 0 _ _ (length pre)).
  - rewrite Ea, Eb, !nth_error_app2, Nat.sub_diag by lia. cbn [nth_error].
    unfold slotCmp, lexc, on_key. reflexivity.
  - intros j Hj. rewrite Ea, Eb, !nth_error_app1 by lia.
    apply (comparator_refl _ slotCmp_comparator).
  - rewrite Ea, !length_app. cbn [length]. lia.
  - rewrite Ea, Eb, !nth_error_app2, Nat.sub_diag by lia. cbn [nth_error].
    unfold slotCmp, lexc, on_key. exact Hne.
Qed.

Lemma fieldCmp_classes p q :
  isNum p = false -> isNum q = true -> fieldCmp p q = 1.
Proof.
  intros Hp Hq. unfold fieldCmp, lexc, classCmp. now rewrite Hp, Hq.
Qed.

(** C5. With equal numeric bases, a version without hyphen is greater
    than one whose suffix, the text after the first hyphen, is not empty
    and does not itself start with a hyphen, and two versions without
    hyphen compare equal; in particular 1.0.0-beta.1 is below 1.0.0.  When
    the suffix starts with a hyphen the rule is missed: the piece kept by
    [split("-", 2)] is empty and the two versions compare equal, as 1.0.0
    and 1.0.0--x do. *)
Theorem release_rule_and_second_hyphen :
  (forall a b s : string,
      sameBase a b -> afterFirstHyphen a = None ->
      afterFirstHyphen b = Some s ->
      compareVersions a b
      = match s with
        | EmptyString => 0
        | String c _ => if Ascii.eqb c "-" then 0 else 1
        end
      /\ compareVersions b a = - compareVersions a b)
  /\ (forall a b : string,
         sameBase a b -> afterFirstHyphen a = None ->
         afterFirstHyphen b = None -> compareVersions a b = 0)
  /\ compareVersions "1.0.0-beta.1" "1.0.0" = -1
  /\ sameBase "1.0.0" "1.0.0--x"
  /\ afterFirstHyphen "1.0.0" = None
  /\ afterFirstHyphen "1.0.0--x" = Some "-x"
  /\ compareVersions "1.0.0" "1.0.0--x" = 0.
Proof.
  split; [|split; [|split; [reflexivity|split; [|repeat split; reflexivity]]]].
  - intros a b s Hb Ha Hs.
    assert (Hna : hasPrerelease a = false).
    { unfold hasPrerelease. now rewrite (kept_none _ Ha). }
    destruct (release_rule a b Hb Hna) as [-> ->].
    unfold hasPrerelease. rewrite (kept_piece _ _ Hs), kept_piece_truthy.
    destruct s as [|c r]; [split; reflexivity|].
    destruct (Ascii.eqb c "-"); split; reflexivity.
  - intros a b Hb Ha Hnb.
    assert (Hna : hasPrerelease a = false).
    { unfold hasPrerelease. now rewrite (kept_none _ Ha). }
    destruct (release_rule a b Hb Hna) as [-> _].
    unfold hasPrerelease. now rewrite (kept_none _ Hnb).
  - intros i. do 3 (destruct i as [|i]; [reflexivity|]). destruct i; reflexivity.
Qed.

(** C6, where the claim fails.  Two fields that are pure integers are not
    always compared by value: 9007199254740993 is read as the double
    9007199254740992, is not printed back as the field, and is therefore
    compared as a string, after the numeric field 9007199254740994, while
    the rule of the design document puts it before. *)
Lemma integer_fields_beyond_doubles :
  compareVersions "1.0.0-9007199254740993" "1.0.0-9007199254740994" = 1
  /\ afterFirstHyphen "1.0.0-9007199254740993" = Some "9007199254740993"
  /\ afterFirstHyphen "1.0.0-9007199254740994" = Some "9007199254740994"
  /\ compareFields (JS.split "." "9007199254740993")
       (JS.split "." "9007199254740994") = -1
  /\ isNum "9007199254740993" = false
  /\ isNum "9007199254740994" = true
  /\ JS.parseInt "9007199254740993" = JS.Num 9007199254740992.
Proof. repeat split; vm_compute; reflexivity. Qed.

(** C6, as amended.  With equal numeric bases and, on both sides, a
    non-empty suffix after the first hyphen that holds no further hyphen,
    [compareVersions] is the field-by-field rule applied to the two
    suffixes split on dots, a field being numeric when the runtime prints
    the number read from it back as the field.  Such a field is a
    canonical numeral and stands for its exact value; every canonical
    numeral of magnitude below 2^53 is such a field.  In particular beta.2
    is below beta.10. *)
Theorem prerelease_fields_rule (a b p q : string) :
  sameBase a b ->
  afterFirstHyphen a = Some p -> p <> EmptyString -> includes "-" p = false ->
  afterFirstHyphen b = Some q -> q <> EmptyString -> includes "-" q = false ->
  compareVersions a b
  = compareFieldsBy printedField (JS.split "." p) (JS.split "." q)
  /\ (forall f z, printedField f = Some z -> numericField f = Some z)
  /\ (forall f z, numericField f = Some z -> Z.abs z < 2 ^ 53 ->
                  printedField f = Some z)
  /\ compareVersions "1.0.0-beta.2" "1.0.0-beta.10" = -1.
Proof.
  intros Hb Hp Hpn Hph Hq Hqn Hqh.
  split; [|split; [|split; [|reflexivity]]].
  - rewrite (compareVersions_sameBase _ _ Hb).
    unfold lexc, flagCmp, preCmp, preFields, prerelease, hasPrerelease.
    rewrite (kept_whole _ _ Hp Hph), (kept_whole _ _ Hq Hqh).
    destruct p as [|c p]; [congruence|]. destruct q as [|d q]; [congruence|].
    cbn [JS.truthy]. change (Zcmp 0 0 =? 0) with true. cbv iota.
    apply pre_loop_compareFields.
  - intros f z. unfold printedField, numericField.
    destruct (isNum f) eqn:E; [|discriminate].
    now rewrite (isNum_canonicalInt _ E).
  - intros f z. unfold printedField, numericField.
    destruct (canonicalInt f) eqn:E; [|discriminate].
    intros [= <-] Hz. now rewrite (isNum_of_canonicalInt _ E Hz).
Qed.

Lemma prerelease_fields_rule_witness :
  compareVersions "1.0.0-rc.1.x" "1.0-rc.1"
  = compareFieldsBy printedField (JS.split "." "rc.1.x") (JS.split "." "rc.1")
  /\ compareVersions "1.0.0-rc.1.x" "1.0-rc.1" = 1.
Proof.
  split; [|reflexivity].
  apply (prerelease_fields_rule "1.0.0-rc.1.x" "1.0-rc.1" "rc.1.x" "rc.1");
    try reflexivity; try discriminate.
  intros i. do 3 (destruct i as [|i]; [reflexivity|]). destruct i; reflexivity.
Defined.
(** C7. The pre-release suffix kept by [compareVersions] is never
    everything after the first hyphen when a second hyphen follows: it
    contains no hyphen at all.  For 1.0.0-beta-2 it is beta, and
    1.0.0-beta-1 and 1.0.0-beta-2 compare equal. *)
Theorem suffix_stops_at_second_hyphen :
  (forall v : string,
      match snd (split_version v) with
      | Some p => includes "-" p = false
      | None => True
      end)
  /\ split_version "1.0.0-beta-2" = ("1.0.0", Some "beta")
  /\ compareVersions "1.0.0-beta-1" "1.0.0-beta-2" = 0
  /\ compareVersions "1.0.0--x" "1.0.0" = 0.
Proof.
  split; [|repeat split; reflexivity].
  intros v. destruct (snd (split_version v)) as [p|] eqn:E; [|exact I].
  now apply (kept_suffix_no_hyphen v).
Qed.

(** C8. [compareVersions] reads the base through its components with
    every unparseable component counted as 0 and missing trailing
    components counted as 0, and never rejects its input: two versions
    that agree in this reading and keep the same pre-release suffix
    compare equal and are interchangeable in every comparison, whose
    result is always -1, 0 or 1.  So 1.abc.0 equals 1.0.0 and 1.0 equals
    1.0.0. *)
Theorem base_leniency (a a' : string) :
  prerelease a = prerelease a' ->
  (forall i, nth i (lenientParts a) (JS.Num 0)
             = nth i (lenientParts a') (JS.Num 0)) ->
  (forall b, compareVersions a b = compareVersions a' b
             /\ compareVersions b a = compareVersions b a'
             /\ (compareVersions a b = -1 \/ compareVersions a b = 0
                 \/ compareVersions a b = 1))
  /\ compareVersions a a' = 0
  /\ compareVersions "1.abc.0" "1.0.0" = 0
  /\ compareVersions "1.0" "1.0.0" = 0.
Proof.
  intros Hp Hl.
  assert (Hs : sameBase a a').
  { intros i. rewrite !baseParts_lenient. apply Hl. }
  assert (H0 : compareVersions a a' = 0).
  { rewrite (compareVersions_sameBase _ _ Hs).
    unfold lexc, flagCmp, preCmp, preFields.
    rewrite !hasPrerelease_prerelease, Hp.
    rewrite (comparator_refl _ Zcmp_comparator). cbn [Z.eqb].
    change (preCmp a' a' = 0).
    apply (comparator_refl _ preCmp_comparator). }
  split; [|split; [exact H0|split; reflexivity]].
  pose proof (cmp_antisym _ compareVersions_comparator) as Ha.
  intros b.
  pose proof (compareVersions_stages a b) as Eab.
  pose proof (compareVersions_stages a' b) as Ea'b.
  assert (Hbase : baseCmp a b = baseCmp a' b).
  { unfold baseCmp.
    assert (El : forall N, JS.for_loop N 0 (base_step (baseParts a) (baseParts b))
                 = JS.for_loop N 0 (base_step (baseParts a') (baseParts b))).
    { intros N. apply for_loop_ext. intros j _. unfold base_step.
      rewrite (Hs j). reflexivity. }
    set (N := Nat.max (length (baseParts a)) (Nat.max (length (baseParts a'))
                         (length (baseParts b)))).
    rewrite <- (for_loop_extend _ (N - Nat.max (length (baseParts a)) (length (baseParts b))) 0).
    2:{ intros j Hj. unfold base_step. rewrite !nth_overflow by lia. reflexivity. }
    rewrite <- (for_loop_extend (Nat.max (length (baseParts a')) (length (baseParts b)))
                  (N - Nat.max (length (baseParts a')) (length (baseParts b))) 0).
    2:{ intros j Hj. unfold base_step. rewrite !nth_overflow by lia. reflexivity. }
    replace (Nat.max (length (baseParts a)) (length (baseParts b))
             + (N - Nat.max (length (baseParts a)) (length (baseParts b))))%nat
      with N by lia.
    replace (Nat.max (length (baseParts a')) (length (baseParts b))
             + (N - Nat.max (length (baseParts a')) (length (baseParts b))))%nat
      with N by lia.
    rewrite El. reflexivity. }
  assert (Hrest : lexc flagCmp preCmp a b = lexc flagCmp preCmp a' b).
  { unfold lexc, flagCmp, preCmp, preFields.
    rewrite !hasPrerelease_prerelease, Hp. reflexivity. }
  assert (E : compareVersions a b = compareVersions a' b).
  { rewrite Eab, Ea'b. unfold lexc at 1 3. rewrite Hbase, Hrest. reflexivity. }
  split; [exact E|]. split; [|apply compareVersions_range].
  rewrite (Ha b a), (Ha b a'), E. reflexivity.
Qed.

Lemma base_leniency_witness :
  (forall b, compareVersions "1.x.0-rc" b = compareVersions "1-rc" b
             /\ compareVersions b "1.x.0-rc" = compareVersions b "1-rc"
             /\ (compareVersions "1.x.0-rc" b = -1
                 \/ compareVersions "1.x.0-rc" b = 0
                 \/ compareVersions "1.x.0-rc" b = 1))
  /\ compareVersions "1.x.0-rc" "1-rc" = 0
  /\ compareVersions "1.abc.0" "1.0.0" = 0
  /\ compareVersions "1.0" "1.0.0" = 0.
Proof.
  apply (base_leniency "1.x.0-rc" "1-rc").
  - reflexivity.
  - intros i. do 3 (destruct i as [|i]; [reflexivity|]). destruct i; reflexivity.
Defined.

(** C10. A pre-release field counts as numeric only when it is a
    canonical decimal numeral.  With equal numeric bases and suffixes that
    agree up to some field, a field that is not canonical, such as 01,
    met by a numeric field on the other side is compared as a string and
    sorts after it; so 1.0.0-beta.01 is above 1.0.0-beta.2, the field 2
    being numeric. *)
Theorem numeric_field_canonical :
  (forall f : string, isNum f = true -> canonicalInt f = true)
  /\ (forall (a b : string) (pre xs ys : list string) (p q : string),
         sameBase a b ->
         preFields a = (pre ++ p :: xs)%list ->
         preFields b = (pre ++ q :: ys)%list ->
         canonicalInt p = false ->
         isNum q = true ->
         compareVersions a b = 1 /\ compareVersions b a = -1)
  /\ canonicalInt "01" = false
  /\ isNum "01" = false
  /\ isNum "2" = true
  /\ compareVersions "1.0.0-beta.01" "1.0.0-beta.2" = 1.
Proof.
  split; [exact isNum_canonicalInt|].
  split; [|repeat split; reflexivity].
  intros a b pre xs ys p q Hb Ea Eb Hp Hq.
  assert (Hnp : isNum p = false).
  { destruct (isNum p) eqn:E; [|reflexivity].
    rewrite (isNum_canonicalInt _ E) in Hp. discriminate. }
  assert (H1 : compareVersions a b = 1).
  { rewrite (first_field_decides a b pre p q xs ys Hb Ea Eb);
      rewrite (fieldCmp_classes _ _ Hnp Hq); [reflexivity|discriminate]. }
  split; [exact H1|].
  rewrite (cmp_antisym _ compareVersions_comparator b a), H1. reflexivity.
Qed.

Lemma numeric_field_canonical_witness :
  compareVersions "1.0.0-beta.01" "1.0.0-beta.2" = 1
  /\ compareVersions "1.0.0-beta.2" "1.0.0-beta.01" = -1.
Proof.
  apply (proj1 (proj2 numeric_field_canonical) "1.0.0-beta.01" "1.0.0-beta.2"
           ["beta"] [] [] "01" "2"); try reflexivity.
  intros i. do 3 (destruct i as [|i]; [reflexivity|]). destruct i; reflexivity.
Defined.
(** ** Sorting *)

Lemma insert_perm {A} (c : A -> A -> Z) x l :
  Permutation (Obj.insert c x l) (x :: l).
Proof.
  induction l as [|y l IH]; simpl; [reflexivity|].
  destruct (c x y <=? 0); [reflexivity|].
  rewrite IH. apply perm_swap.
Qed.

Lemma sort_perm {A} (c : A -> A -> Z) l : Permutation (Obj.sort c l) l.
Proof.
  induction l as [|x l IH]; simpl; [reflexivity|].
  rewrite insert_perm. now constructor.
Qed.

Lemma insert_sorted {A} (c : A -> A -> Z) x l :
  Comparator c ->
  StronglySorted (fun u v => c u v <= 0) l ->
  StronglySorted (fun u v => c u v <= 0) (Obj.insert c x l).
Proof.
  intros [Ha Ht]. induction 1 as [|y l Hs IH Hy]; simpl.
  - repeat constructor.
  - destruct (c x y <=? 0) eqn:E.
    + apply Z.leb_le in E. constructor; [now constructor|].
      constructor; [assumption|].
      eapply List.Forall_impl; [|exact Hy]. intros z Hz. now apply (Ht x y z).
    + apply Z.leb_gt in E. constructor; [assumption|].
      eapply Permutation_Forall; [symmetry; apply insert_perm|].
      constructor; [|assumption]. specialize (Ha x y). lia.
Qed.

Lemma sort_sorted {A} (c : A -> A -> Z) l :
  Comparator c -> StronglySorted (fun u v => c u v <= 0) (Obj.sort c l).
Proof.
  intros Hc. induction l as [|x l IH]; simpl; [constructor|].
  now apply insert_sorted.
Qed.

Lemma filter_sorted {A} (R : A -> A -> Prop) (f : A -> bool) l :
  StronglySorted R l -> StronglySorted R (List.filter f l).
Proof.
  induction 1 as [|x l Hs IH Hx]; simpl; [constructor|].
  destruct (f x); [|assumption]. constructor; [assumption|].
  apply List.Forall_forall. intros y Hy. apply List.filter_In in Hy.
  rewrite List.Forall_forall in Hx. now apply Hx.
Qed.

Lemma filter_partition_perm {A} (f : A -> bool) l :
  Permutation (List.filter f l ++ List.filter (fun x => negb (f x)) l) l.
Proof.
  induction l as [|x l IH]; simpl; [reflexivity|].
  destruct (f x); simpl.
  - now constructor.
  - rewrite <- Permutation_middle. now constructor.
Qed.

Lemma keys_perm {V} (obj : Obj.t V) :
  Permutation (Obj.keys obj) (List.map fst obj).
Proof.
  unfold Obj.keys. rewrite sort_perm. apply filter_partition_perm.
Qed.

Lemma filter_perm {A} (f : A -> bool) l l' :
  Permutation l l' -> Permutation (List.filter f l) (List.filter f l').
Proof.
  induction 1; simpl.
  - reflexivity.
  - destruct (f x); [now constructor|assumption].
  - destruct (f x), (f y); try reflexivity. apply perm_swap.
  - etransitivity; eassumption.
Qed.

(** ** The plan *)

Lemma push_items_Raise manifests vs :
  fold_left (push_items manifests) vs Raise = Raise.
Proof. induction vs as [|v vs IH]; cbn [fold_left]; [reflexivity|exact IH]. Qed.

(** The collecting loop succeeds exactly when every manifest it visits
    can be spread, and then returns the items in the order visited. *)
Lemma collect_normal_form manifests vs acc :
  fold_left (push_items manifests) vs (Ok acc)
  = if forallb (iterableAt manifests) vs
    then Ok (acc ++ flat_map (itemsAt manifests) vs)%list
    else Raise.
Proof.
  revert acc. induction vs as [|v vs IH]; intros acc;
    cbn [fold_left forallb flat_map].
  - now rewrite app_nil_r.
  - unfold push_items at 2, items_of, iterableAt at 1, iterable, itemsAt at 1,
      authoredItems, spread, bind.
    destruct (Obj.get manifests v) as [m|].
    + destruct (migrations m) as [items|]; cbn [andb default].
      * rewrite IH, app_assoc. reflexivity.
      * apply push_items_Raise.
    + cbn [andb]. rewrite IH, app_nil_r. reflexivity.
Qed.

Lemma collectMigrations_eq manifests fromVersion toVersion :
  collectMigrations manifests fromVersion toVersion
  = if forallb (iterableAt manifests)
         (applicableVersions manifests fromVersion toVersion)
    then Ok (flat_map (itemsAt manifests)
               (applicableVersions manifests fromVersion toVersion))
    else Raise.
Proof. unfold collectMigrations. now rewrite collect_normal_form. Qed.


Lemma getMigrations_loaded dir w manifests w' fromVersion toVersion :
  loadManifests dir w = (Ok manifests, w') ->
  getMigrationsForVersion dir fromVersion toVersion w
  = (collectMigrations manifests fromVersion toVersion, w').
Proof. intros H. unfold getMigrationsForVersion. now rewrite H. Qed.

Lemma applicableVersions_perm manifests fromVersion toVersion :
  Permutation (applicableVersions manifests fromVersion toVersion)
    (List.filter (applicable fromVersion toVersion) (List.map fst manifests)).
Proof.
  unfold applicableVersions. apply filter_perm.
  rewrite sort_perm. apply keys_perm.
Qed.

Lemma applicableVersions_sorted manifests fromVersion toVersion :
  StronglySorted versionLe (applicableVersions manifests fromVersion toVersion).
Proof.
  unfold applicableVersions. apply filter_sorted.
  apply (sort_sorted compareVersions), compareVersions_comparator.
Qed.


Lemma applicable_empty fromVersion toVersion v :
  compareVersions fromVersion toVersion >= 0 ->
  applicable fromVersion toVersion v = false.
Proof.
  intros H. unfold applicable.
  destruct (compareVersions v fromVersion >? 0) eqn:E1; [|reflexivity].
  destruct (compareVersions v toVersion <=? 0) eqn:E2; [|reflexivity].
  exfalso. rewrite Z.gtb_ltb in E1. apply Z.ltb_lt in E1. apply Z.leb_le in E2.
  pose proof (cmp_antisym _ compareVersions_comparator fromVersion toVersion).
  pose proof (cmp_trans _ compareVersions_comparator v toVersion fromVersion).
  lia.
Qed.

Lemma filter_none {A} (f : A -> bool) l :
  (forall x, f x = false) -> List.filter f l = [].
Proof.
  intros H. induction l as [|x l IH]; simpl; [reflexivity|].
  now rewrite H.
Qed.

(** ** The loader *)

Lemma load_file_registry l ms out out' :
  fst (fold_left load_file l (ms, out)) = fst (fold_left load_file l (ms, out')).
Proof.
  revert ms out out'. induction l as [|[f o] l IH]; intros ms out out';
    cbn [fold_left load_file]; [reflexivity|].
  destruct o as [|m]; [apply IH|].
  destruct (JS.truthy (Some (version m))); apply IH.
Qed.

Lemma loadManifests_listing entries w :
  manifestCache w = None ->
  loadManifests (Listing entries) w
  = (let r := fold_left load_file
                (List.filter (fun e => endsWith ".json" (fst e)) entries)
                ([], console w) in
     (Ok (fst r), {| manifestCache := Some (fst r); console := snd r |})).
Proof.
  intros H. unfold loadManifests. rewrite H.
  destruct (fold_left load_file _ _) as [ms out]. reflexivity.
Qed.

(** *** Registries built by the loader *)

Lemma set_own_keys {V} (obj : Obj.t V) k v :
  List.map fst (Obj.set_own obj k v)
  = if existsb (String.eqb k) (List.map fst obj) then List.map fst obj
    else (List.map fst obj ++ [k])%list.
Proof.
  induction obj as [|[k' v'] obj IH];
    cbn [Obj.set_own List.map fst existsb app]; [reflexivity|].
  rewrite (String.eqb_sym k k').
  destruct (String.eqb k' k); cbn [List.map fst orb]; [reflexivity|].
  rewrite IH. destruct (existsb _ _); reflexivity.
Qed.

Lemma set_wf obj (m : MigrationManifest) :
  NoDup (List.map fst obj) ->
  List.Forall (fun e => version (snd e) = fst e) obj ->
  NoDup (List.map fst (Obj.set obj (version m) m))
  /\ List.Forall (fun e => version (snd e) = fst e) (Obj.set obj (version m) m).
Proof.
  intros Hnd Hall. unfold Obj.set.
  destruct (String.eqb (version m) "__proto__"); [auto|]. split.
  - rewrite set_own_keys. destruct (existsb _ _) eqn:E; [assumption|].
    apply NoDup_app. split; [assumption|]. split; [|repeat constructor; inversion 1].
    intros x Hx Hk. apply list_elem_of_In in Hx, Hk.
    destruct Hk as [<-|[]].
    assert (existsb (String.eqb (version m)) (List.map fst obj) = true); [|congruence].
    apply existsb_exists. exists (version m). split; [assumption|apply String.eqb_refl].
  - induction Hall as [|[k' v'] obj Hk Hall IH]; cbn [Obj.set_own].
    + repeat constructor.
    + cbn [fst snd] in Hk.
      destruct (String.eqb_spec k' (version m)) as [->|Hne].
      * constructor; [reflexivity|assumption].
      * constructor; [assumption|]. apply IH. now inversion Hnd.
Qed.

Lemma load_files_wf l obj out :
  NoDup (List.map fst obj) ->
  List.Forall (fun e => version (snd e) = fst e) obj ->
  NoDup (List.map fst (fst (fold_left load_file l (obj, out))))
  /\ List.Forall (fun e => version (snd e) = fst e)
       (fst (fold_left load_file l (obj, out))).
Proof.
  revert obj out. induction l as [|[f o] l IH]; intros obj out Hnd Hall;
    cbn [fold_left load_file]; [auto|].
  destruct o as [|m]; [now apply IH|].
  destruct (JS.truthy (Some (version m))); [|now apply IH].
  destruct (set_wf obj m Hnd Hall). now apply IH.
Qed.

(** Starting from an empty cache, the registry has one entry per version
    and each manifest is stored under its own version. *)
Lemma loaded_registry_wf dir w manifests w' :
  manifestCache w = None ->
  loadManifests dir w = (Ok manifests, w') ->
  NoDup (List.map fst manifests)
  /\ List.Forall (fun e => version (snd e) = fst e) manifests.
Proof.
  intros Hc. destruct dir as [| |entries].
  - unfold loadManifests. rewrite Hc. intros [= <- _]. split; constructor.
  - unfold loadManifests. rewrite Hc. discriminate.
  - rewrite loadManifests_listing by assumption. cbv zeta. intros [= <- _].
    apply load_files_wf; constructor.
Qed.




(** C2. When [fromVersion] is not below [toVersion] (equal versions or a
    downgrade), [getMigrationsForVersion] returns the empty list for every
    loaded registry: nothing is raised and no item is produced. *)
Theorem no_plan_without_upgrade (dir : ManifestsDir) (w w' : World)
  (manifests : Registry) (fromVersion toVersion : string) :
  loadManifests dir w = (Ok manifests, w') ->
  compareVersions fromVersion toVersion >= 0 ->
  getMigrationsForVersion dir fromVersion toVersion w = (Ok [], w').
Proof.
  intros Hload Hcmp. unfold getMigrationsForVersion. rewrite Hload.
  unfold collectMigrations, applicableVersions.
  rewrite filter_none; [reflexivity|].
  intros v. now apply applicable_empty.
Qed.

Lemma no_plan_without_upgrade_witness :
  getMigrationsForVersion
    (Listing [("0.3.0.json",
               Parsed (manifestOf "0.3.0"
                         [{| type := delete; from := "old.md"; to := None |}]))])
    "0.3.0" "0.2.0" {| manifestCache := None; console := [] |}
  = (Ok [],
     {| manifestCache :=
          Some [("0.3.0",
                 manifestOf "0.3.0"
                   [{| type := delete; from := "old.md"; to := None |}])];
        console := [] |}).
Proof.
  apply (no_plan_without_upgrade _ _ _
           [("0.3.0",
             manifestOf "0.3.0"
               [{| type := delete; from := "old.md"; to := None |}])]).
  - reflexivity.
  - vm_compute. discriminate.
Defined.

(** C3. With an empty cache, loading a directory that holds one valid
    manifest file (a manifest with a non-empty version, other than the
    reserved property name) and one unparseable file raises nothing: the
    registry is exactly the valid manifest under its version, and one
    warning names the bad file.  More generally a file whose parsing fails
    leaves the registry as it would be without that file. *)
Theorem loader_skips_invalid_file (good bad : string) (m : MigrationManifest)
  (w : World) (before after : list (string * FileOutcome)) :
  manifestCache w = None ->
  endsWith ".json" good = true ->
  endsWith ".json" bad = true ->
  version m <> EmptyString ->
  version m <> "__proto__" ->
  let loaded :=
    (Ok [(version m, m)],
     {| manifestCache := Some [(version m, m)];
        console := (console w ++ [warning bad])%list |}) in
  loadManifests (Listing [(good, Parsed m); (bad, Throws)]) w = loaded
  /\ loadManifests (Listing [(bad, Throws); (good, Parsed m)]) w = loaded
  /\ exists ms w1 w2,
       loadManifests (Listing (before ++ (bad, Throws) :: after)) w = (Ok ms, w1)
       /\ loadManifests (Listing (before ++ after)) w = (Ok ms, w2).
Proof.
  intros Hc Hg Hb Hv Hproto loaded. subst loaded.
  assert (Ht : JS.truthy (Some (version m)) = true).
  { destruct (version m); [congruence|reflexivity]. }
  apply String.eqb_neq in Hproto.
  rewrite !loadManifests_listing by assumption.
  cbn [List.filter fst]. rewrite Hg, Hb. cbn [fold_left load_file].
  rewrite Ht. unfold Obj.set. rewrite Hproto. cbn [Obj.set_own fst snd].
  split; [reflexivity|]. split; [reflexivity|].
  rewrite !List.filter_app. cbn [List.filter fst]. rewrite Hb.
  rewrite !fold_left_app. cbn [fold_left].
  destruct (fold_left load_file
              (List.filter (fun e => endsWith ".json" (fst e)) before)
              ([], console w)) as [ms0 out0].
  cbn [load_file].
  eexists _, _, _. split; [reflexivity|].
  rewrite (load_file_registry _ ms0 out0 (out0 ++ [warning bad])%list).
  reflexivity.
Qed.

Lemma loader_skips_invalid_file_witness :
  loadManifests
    (Listing [("0.3.0.json", Parsed (manifestOf "0.3.0" []));
              ("broken.json", Throws)])
    {| manifestCache := None; console := [] |}
  = (Ok [("0.3.0", manifestOf "0.3.0" [])],
     {| manifestCache := Some [("0.3.0", manifestOf "0.3.0" [])];
        console := [warning "broken.json"] |}).
Proof.
  apply (loader_skips_invalid_file "0.3.0.json" "broken.json"
           (manifestOf "0.3.0" []) {| manifestCache := None; console := [] |}
           [] []); try reflexivity; discriminate.
Defined.

(** ** Idempotence of the reconciler model *)

Section ReconcilerFacts.

Import Reconciler.

Variable hash : string -> string.

Lemma decision_ext pr pr' p t :
  files pr !! p = files pr' !! p ->
  fingerprints pr !! p = fingerprints pr' !! p ->
  decision hash pr p t = decision hash pr' p t.
Proof.
  intros Hf Hp. unfold decision, matches. rewrite Hf, Hp. reflexivity.
Qed.

Lemma decision_write pr p t : decision hash (write hash pr p t) p t = DoSkip.
Proof.
  unfold decision, write, matches, record. cbn [files fingerprints].
  rewrite !lookup_insert_eq.
  rewrite bool_decide_eq_true_2 by reflexivity. reflexivity.
Qed.

Lemma reconcileFile_settles o pr res p t pr' res' :
  reconcileFile hash o (pr, res) (p, t) = (pr', res') ->
  settled hash o pr' p t.
Proof.
  unfold reconcileFile, settled.
  destruct (decision hash pr p (content t)) eqn:E.
  - intros [= <- _]. now rewrite decision_write.
  - intros [= <- _]. now rewrite E.
  - intros [= <- _]. now rewrite decision_write.
  - destruct (strict o) eqn:Es.
    + intros [= <- _]. rewrite E. exact Es.
    + intros [= <- _]. now rewrite decision_write.
Qed.

Lemma backup_lookups pr p :
  files (backup pr p) = files pr /\ fingerprints (backup pr p) = fingerprints pr
  /\ versionMarker (backup pr p) = versionMarker pr.
Proof. unfold backup. destruct (files pr !! p); auto. Qed.

Lemma reconcileFile_other o pr res p t pr' res' q :
  q <> p ->
  reconcileFile hash o (pr, res) (p, t) = (pr', res') ->
  files pr' !! q = files pr !! q
  /\ fingerprints pr' !! q = fingerprints pr !! q.
Proof.
  intros Hq. unfold reconcileFile.
  destruct (backup_lookups pr p) as (Hbf & Hbp & _).
  destruct (decision hash pr p (content t)); [| |
    |destruct (strict o)]; intros [= <- _]; unfold write, record;
    cbn [files fingerprints]; rewrite ?Hbf, ?Hbp;
    rewrite ?lookup_insert_ne by congruence; auto.
Qed.

Lemma pass_other o l pr res pr' res' q :
  q ∉ l.*1 ->
  fold_left (reconcileFile hash o) l (pr, res) = (pr', res') ->
  files pr' !! q = files pr !! q
  /\ fingerprints pr' !! q = fingerprints pr !! q.
Proof.
  revert pr res. induction l as [|[p t] l IH]; intros pr res Hq; cbn [fold_left].
  - intros [= <- _]. auto.
  - destruct (reconcileFile hash o (pr, res) (p, t)) as [pr1 res1] eqn:E.
    intros H. rewrite fmap_cons, not_elem_of_cons in Hq. destruct Hq as [Hne Hq].
    destruct (IH _ _ Hq H) as [-> ->].
    eapply reconcileFile_other; eauto.
Qed.

Lemma pass_settles o l pr res pr' res' :
  NoDup l.*1 ->
  fold_left (reconcileFile hash o) l (pr, res) = (pr', res') ->
  forall p t, (p, t) ∈ l -> settled hash o pr' p t.
Proof.
  revert pr res. induction l as [|[p0 t0] l IH]; intros pr res Hnd;
    cbn [fold_left].
  - intros _ p t Hin. inversion Hin.
  - destruct (reconcileFile hash o (pr, res) (p0, t0)) as [pr1 res1] eqn:E.
    rewrite fmap_cons in Hnd. apply NoDup_cons in Hnd. destruct Hnd as [Hfresh Hnd].
    intros H p t Hin. apply elem_of_cons in Hin. destruct Hin as [[= -> ->]|Hin].
    + pose proof (reconcileFile_settles _ _ _ _ _ _ _ E) as Hs.
      destruct (pass_other _ _ _ _ _ _ _ Hfresh H) as [Hf Hp].
      unfold settled in *. now rewrite (decision_ext pr' pr1).
    + eapply IH; eauto.
Qed.

Lemma sameOperations_refl res : sameOperations res res.
Proof. repeat split. Qed.

Lemma sameOperations_trans r1 r2 r3 :
  sameOperations r1 r2 -> sameOperations r2 r3 -> sameOperations r1 r3.
Proof.
  unfold sameOperations. intros (?&?&?&?&?) (?&?&?&?&?).
  repeat split; congruence.
Qed.

Lemma reconcileFile_quiet o pr res p t :
  settled hash o pr p t ->
  exists res', reconcileFile hash o (pr, res) (p, t) = (pr, res')
               /\ sameOperations res res'.
Proof.
  unfold settled, reconcileFile.
  destruct (decision hash pr p (content t)); cbn [quiet]; try discriminate.
  - intros _. eexists. split; [reflexivity|]. repeat split.
  - intros ->. eexists. split; [reflexivity|]. repeat split.
Qed.

Lemma pass_quiet o l pr res :
  (forall p t, (p, t) ∈ l -> settled hash o pr p t) ->
  exists res', fold_left (reconcileFile hash o) l (pr, res) = (pr, res')
               /\ sameOperations res res'.
Proof.
  revert res. induction l as [|[p t] l IH]; intros res Hall; cbn [fold_left].
  - exists res. split; [reflexivity|apply sameOperations_refl].
  - destruct (reconcileFile_quiet o pr res p t) as (res1 & -> & H1).
    { apply Hall. left. }
    destruct (IH res1) as (res2 & -> & H2).
    { intros q u Hin. apply Hall. now right. }
    exists res2. split; [reflexivity|]. eapply sameOperations_trans; eauto.
Qed.

Lemma candidates_NoDup selection (currentTemplates : gmap string TemplateFile) :
  NoDup (candidates selection currentTemplates).*1.
Proof.
  unfold candidates.
  pose proof (NoDup_fst_map_to_list currentTemplates) as H.
  induction (map_to_list currentTemplates) as [|e l IH]; cbn [List.filter].
  - constructor.
  - rewrite fmap_cons in H. apply NoDup_cons in H. destruct H as [Hfresh H].
    destruct (bool_decide _); [|now apply IH].
    rewrite fmap_cons. apply NoDup_cons. split; [|now apply IH].
    intros Hin. apply Hfresh.
    apply list_elem_of_fmap in Hin. destruct Hin as (x & -> & Hx).
    apply list_elem_of_fmap. exists x. split; [reflexivity|].
    apply list_elem_of_In in Hx. apply List.filter_In in Hx.
    apply list_elem_of_In. tauto.
Qed.

Lemma nextVersion_not_below v target :
  compareVersions (nextVersion v target) target >= 0.
Proof.
  unfold nextVersion.
  pose proof (cmp_antisym _ compareVersions_comparator target v).
  pose proof (comparator_refl _ compareVersions_comparator target).
  destruct (compareVersions target v <? 0) eqn:E; lia.
Qed.

Lemma nextVersion_idem v target :
  nextVersion (nextVersion v target) target = nextVersion v target.
Proof.
  unfold nextVersion.
  destruct (compareVersions target v <? 0) eqn:E; [now rewrite E|].
  rewrite (comparator_refl _ compareVersions_comparator target). reflexivity.
Qed.

Lemma collectMigrations_none manifests fromVersion toVersion :
  compareVersions fromVersion toVersion >= 0 ->
  collectMigrations manifests fromVersion toVersion = Ok [].
Proof.
  intros H. unfold collectMigrations, applicableVersions.
  rewrite filter_none; [reflexivity|].
  intros v. now apply applicable_empty.
Qed.

(** C9. In the reconciler model, a successful reconciliation followed at
    once by a second one from the version it recorded, with the same
    registry, target version, selection, templates and options, succeeds,
    leaves the project as the first run left it and performs no file
    operation; when the run is not a dry run the second result reports no
    create, update or delete and no structural migration. *)
Theorem reconcile_idempotent (manifests : Registry) (targetVersion : string)
  (selection : list string) (currentTemplates : gmap string TemplateFile)
  (o : Options) (pr : Project) (first : Project * ReconciliationResult) :
  reconcile hash manifests (versionMarker pr) targetVersion selection
    currentTemplates o pr = Ok first ->
  exists second,
    reconcile hash manifests (versionMarker (fst first)) targetVersion
      selection currentTemplates o (fst first) = Ok second
    /\ fst second = fst first
    /\ operations (snd second) = []
    /\ (dryRun o = false ->
        created (snd second) = [] /\ updated (snd second) = []
        /\ deleted (snd second) = [] /\ migrationCount (snd second) = 0%nat).
Proof.
  unfold reconcile at 1, bind.
  destruct (collectMigrations manifests (versionMarker pr) targetVersion)
    as [plan|] eqn:Ep; [|discriminate].
  intros [= <-]. unfold reconcileWith at 1 2 3.
  destruct (dryRun o) eqn:Hdry.
  { destruct (fold_left applyMigration plan _) as [prm resm].
    destruct (fold_left (reconcileFile hash o) _ (prm, resm)) as [pr1 res1].
    cbn [fst]. unfold reconcile, bind. rewrite Ep. eexists. split; [reflexivity|].
    unfold reconcileWith. rewrite Hdry.
    destruct (fold_left applyMigration plan _) as [prm' resm'].
    destruct (fold_left (reconcileFile hash o) _ (prm', resm')) as [pr2 res2].
    cbn [fst snd operations].
    split; [reflexivity|]. split; [reflexivity|]. discriminate. }
  destruct (fold_left applyMigration plan _) as [prm resm].
  destruct (fold_left (reconcileFile hash o) _ (prm, resm)) as [pr1 res1] eqn:E1.
  cbn [fst versionMarker]. unfold reconcile, bind.
  rewrite collectMigrations_none by apply nextVersion_not_below.
  eexists. split; [reflexivity|].
  unfold reconcileWith. rewrite Hdry. cbn [fold_left length].
  set (pr1' := {| files := files pr1; fingerprints := fingerprints pr1;
                  versionMarker := nextVersion (versionMarker pr) targetVersion;
                  backups := backups pr1 |}).
  destruct (pass_quiet o (candidates selection currentTemplates) pr1'
              {| created := []; updated := []; skipped := []; deleted := [];
                 conflicts := []; migrationCount := 0; operations := [] |})
    as (res2 & -> & Hop & Hcr & Hup & Hde & Hmc).
  { intros p t Hin.
    pose proof (pass_settles o _ _ _ _ _ (candidates_NoDup _ _) E1 p t Hin) as Hs.
    unfold settled in *. now rewrite (decision_ext pr1' pr1). }
  cbn [fst snd]. rewrite nextVersion_idem.
  repeat split; assumption.
Qed.

End ReconcilerFacts.

Lemma reconcile_idempotent_witness :
  let hash := fun s : string => String.append "#" s in
  let manifests :=
    [("0.2.0",
      manifestOf "0.2.0"
        [{| type := rename; from := "agents/old.md";
            to := Some "agents/new.md" |}])] in
  let templates : gmap string Reconciler.TemplateFile :=
    {[ "CLAUDE.md" :=
         {| Reconciler.platform := "claude"; Reconciler.content := "v2" |} ]} in
  let o := {| Reconciler.dryRun := false; Reconciler.strict := false |} in
  let pr :=
    {| Reconciler.files :=
         {[ "CLAUDE.md" := "edited"; "agents/old.md" := "agent" ]};
       Reconciler.fingerprints := {[ "CLAUDE.md" := hash "v1" ]};
       Reconciler.versionMarker := "0.1.0";
       Reconciler.backups := [] |} in
  exists first second,
    Reconciler.reconcile hash manifests "0.1.0" "0.2.0" ["claude"] templates
      o pr = Ok first
    /\ Reconciler.operations (snd first)
       = [Reconciler.Rename "agents/old.md" "agents/new.md";
          Reconciler.Backup "CLAUDE.md"; Reconciler.Update "CLAUDE.md"]
    /\ Reconciler.reconcile hash manifests
         (Reconciler.versionMarker (fst first)) "0.2.0" ["claude"] templates o
         (fst first) = Ok second
    /\ fst second = fst first
    /\ Reconciler.operations (snd second) = [].
Proof.
  intros hash manifests templates o pr.
  set (first :=
         Reconciler.reconcileWith hash
           [{| type := rename; from := "agents/old.md";
               to := Some "agents/new.md" |}]
           "0.1.0" "0.2.0" ["claude"] templates o pr).
  assert (H : Reconciler.reconcile hash manifests
                (Reconciler.versionMarker pr) "0.2.0" ["claude"] templates o pr
              = Ok first) by reflexivity.
  destruct (reconcile_idempotent hash manifests "0.2.0" ["claude"] templates
              o pr first H) as (second & H2 & Hfst & Hops & _).
  exists first, second.
  split; [exact H|]. split; [vm_compute; reflexivity|].
  split; [exact H2|]. split; assumption.
Defined.

(** * Further properties of the module *)

(** ** The comparator as an order *)

Lemma compareVersions_tie a b c :
  compareVersions a b = 0 ->
  compareVersions a c = compareVersions b c.
Proof.
  intros H.
  pose proof (cmp_antisym _ compareVersions_comparator) as Ha.
  pose proof (cmp_trans _ compareVersions_comparator) as Ht.
  pose proof (compareVersions_range a c). pose proof (compareVersions_range b c).
  pose proof (Ha b a). pose proof (Ha c a). pose proof (Ha c b).
  pose proof (Ht a b c). pose proof (Ht b a c).
  pose proof (Ht c a b). pose proof (Ht c b a).
  lia.
Qed.

(** X1. [compareVersions] is transitive, and a strict step makes the
    conclusion strict: the comparator is consistent, which is what
    sorting with it relies on. *)
Theorem compareVersions_transitive (a b c : string) :
  compareVersions a b <= 0 ->
  compareVersions b c <= 0 ->
  compareVersions a c <= 0
  /\ (compareVersions a b < 0 \/ compareVersions b c < 0 ->
      compareVersions a c < 0).
Proof.
  intros Hab Hbc.
  pose proof (cmp_antisym _ compareVersions_comparator) as Ha.
  pose proof (cmp_trans _ compareVersions_comparator) as Ht.
  pose proof (Ht a b c Hab Hbc). split; [assumption|].
  pose proof (Ha a c). pose proof (Ha a b). pose proof (Ha b c).
  pose proof (Ht c a b). pose proof (Ht b c a). lia.
Qed.

Lemma compareVersions_transitive_witness :
  compareVersions "0.1.0" "0.2.0" <= 0
  /\ (compareVersions "0.1.0" "0.2.0-beta.1" < 0
      \/ compareVersions "0.2.0-beta.1" "0.2.0" < 0 ->
      compareVersions "0.1.0" "0.2.0" < 0).
Proof.
  apply (compareVersions_transitive "0.1.0" "0.2.0-beta.1" "0.2.0");
    vm_compute; discriminate.
Defined.

(** X2. [compareVersions] returns -1, 0 or 1 for every pair of strings. *)
Theorem compareVersions_sign :
  forall a b : string,
    compareVersions a b = -1 \/ compareVersions a b = 0
    \/ compareVersions a b = 1.
Proof. exact compareVersions_range. Qed.

(** X3. [compareVersions] returns 0 exactly when the two bases agree at
    every position (missing components counting as 0) and the two
    versions keep the same pre-release suffix, an empty suffix counting as
    none. *)
Theorem compareVersions_equal_iff :
  forall a b : string,
    compareVersions a b = 0
    <-> sameBase a b /\ prerelease a = prerelease b.
Proof. exact compareVersions_zero_iff. Qed.

(** X4. Two versions that compare equal are interchangeable: they compare
    the same way, on either side, with every third version. *)
Theorem compareVersions_equal_congruence (a b : string) :
  compareVersions a b = 0 ->
  forall c, compareVersions a c = compareVersions b c
            /\ compareVersions c a = compareVersions c b.
Proof.
  intros H c. split; [now apply compareVersions_tie|].
  pose proof (cmp_antisym _ compareVersions_comparator) as Ha.
  rewrite (Ha c a), (Ha c b). f_equal. now apply compareVersions_tie.
Qed.

Lemma compareVersions_equal_congruence_witness :
  compareVersions "1.0" "1.0.1-rc.1" = compareVersions "1.0.0" "1.0.1-rc.1"
  /\ compareVersions "1.0.1-rc.1" "1.0" = compareVersions "1.0.1-rc.1" "1.0.0".
Proof.
  apply (compareVersions_equal_congruence "1.0" "1.0.0"). reflexivity.
Defined.


(** X5. The first position at which the bases differ decides the
    comparison, whatever follows in the bases and whatever the pre-release
    suffixes are. *)
Theorem first_base_difference_decides (a b : string) (i : nat) :
  (forall j, (j < i)%nat ->
             nth j (baseParts a) (JS.Num 0) = nth j (baseParts b) (JS.Num 0)) ->
  JS.num_ltb (nth i (baseParts a) (JS.Num 0)) (nth i (baseParts b) (JS.Num 0))
  = true ->
  compareVersions a b = -1 /\ compareVersions b a = 1.
Proof.
  intros Heq Hlt.
  assert (Hc : numCmp (nth i (baseParts a) (JS.Num 0))
                 (nth i (baseParts b) (JS.Num 0)) = -1).
  { pose proof (num_tests_cmp _ _ (baseParts_not_NaN a i) (baseParts_not_NaN b i))
      as H.
    rewrite Hlt in H. destruct (numCmp _ _ =? 0); congruence. }
  assert (H : compareVersions a b = -1).
  { rewrite compareVersions_stages. unfold lexc at 1.
    set (N := Nat.max (Nat.max (length (baseParts a)) (length (baseParts b))) (S i)).
    rewrite (baseCmp_seq a b N) by lia.
    rewrite (seq_cmp_first numCmp N 0 _ _ i).
    - now rewrite Hc.
    - intros j Hj. apply numCmp_eq0. apply Heq. lia.
    - lia.
    - rewrite Hc. discriminate. }
  split; [assumption|].
  rewrite (cmp_antisym _ compareVersions_comparator b a), H. reflexivity.
Qed.

Lemma first_base_difference_decides_witness :
  compareVersions "1.2.9" "1.10.0-alpha" = -1
  /\ compareVersions "1.10.0-alpha" "1.2.9" = 1.
Proof.
  apply (first_base_difference_decides "1.2.9" "1.10.0-alpha" 1).
  - intros j Hj. assert (j = 0%nat) as -> by lia. reflexivity.
  - reflexivity.
Defined.

(** ** The loader and its cache *)

Lemma get_set_own_same {V} (obj : Obj.t V) k v :
  Obj.get (Obj.set_own obj k v) k = Some v.
Proof.
  induction obj as [|[k' v'] obj IH]; cbn [Obj.set_own Obj.get].
  - now rewrite String.eqb_refl.
  - destruct (String.eqb k' k) eqn:E; cbn [Obj.get]; rewrite E; auto.
Qed.

Lemma get_set_own_other {V} (obj : Obj.t V) k v k' :
  k <> k' -> Obj.get (Obj.set_own obj k v) k' = Obj.get obj k'.
Proof.
  intros Hne. induction obj as [|[k0 v0] obj IH]; cbn [Obj.set_own Obj.get].
  - apply String.eqb_neq in Hne. now rewrite Hne.
  - destruct (String.eqb_spec k0 k) as [->|Hk]; cbn [Obj.get].
    + apply String.eqb_neq in Hne. now rewrite Hne.
    + destruct (String.eqb k0 k'); auto.
Qed.

Lemma load_files_normal_form entries ms out :
  fold_left load_file
    (List.filter (fun e => endsWith ".json" (fst e)) entries) (ms, out)
  = (fold_left register (List.filter contributes entries) ms,
     (out ++ List.map (fun e => warning (fst e)) (List.filter fails entries))%list).
Proof.
  revert ms out. induction entries as [|[f o] entries IH]; intros ms out;
    cbn [List.filter fst snd].
  - cbn. now rewrite app_nil_r.
  - unfold contributes, fails. cbn [fst snd].
    destruct (endsWith ".json" f); cbn [andb]; [|apply IH].
    destruct o as [|m]; cbn [fold_left load_file List.map].
    + rewrite IH. now rewrite <- app_assoc.
    + destruct (JS.truthy (Some (version m))) eqn:Et;
        destruct (String.eqb (version m) "__proto__") eqn:Ep;
        cbn [andb negb fold_left]; rewrite IH; unfold register, Obj.set;
        cbn [snd]; rewrite ?Ep; reflexivity.
Qed.

Lemma loadManifests_fresh entries w :
  manifestCache w = None ->
  loadManifests (Listing entries) w
  = (Ok (fold_left register (List.filter contributes entries) []),
     {| manifestCache :=
          Some (fold_left register (List.filter contributes entries) []);
        console :=
          (console w
             ++ List.map (fun e => warning (fst e)) (List.filter fails entries))%list |}).
Proof.
  intros H. rewrite (loadManifests_listing _ _ H), load_files_normal_form.
  reflexivity.
Qed.

Lemma loadManifests_caches dir w manifests w' :
  loadManifests dir w = (Ok manifests, w') ->
  manifestCache w' = Some manifests.
Proof.
  unfold loadManifests. destruct (manifestCache w) as [cached|] eqn:E.
  - intros [= <- <-]. assumption.
  - destruct dir as [| |entries]; [intros [= <- <-]; reflexivity|discriminate|].
    destruct (fold_left load_file _ _). intros [= <- <-]. reflexivity.
Qed.

Lemma loadManifests_cached dir w manifests :
  manifestCache w = Some manifests ->
  loadManifests dir w = (Ok manifests, w).
Proof. intros H. unfold loadManifests. now rewrite H. Qed.

Lemma register_keys acc e :
  contributes e = true ->
  exists m, snd e = Parsed m /\ version m <> EmptyString
            /\ register acc e = Obj.set_own acc (version m) m.
Proof.
  unfold contributes, register. destruct e as [f [|m]]; cbn [fst snd].
  - rewrite andb_false_r. discriminate.
  - intros H. apply andb_true_iff in H. destruct H as [_ H].
    apply andb_true_iff in H. destruct H as [Ht Hp].
    apply negb_true_iff in Hp. exists m. split; [reflexivity|].
    split; [destruct (version m); [discriminate|congruence]|].
    unfold Obj.set. now rewrite Hp.
Qed.

Lemma registered_keys l acc v :
  In v (List.map fst (fold_left register (List.filter contributes l) acc))
  <-> In v (List.map fst acc)
      \/ exists f m, In (f, Parsed m) l /\ contributes (f, Parsed m) = true
                     /\ version m = v.
Proof.
  revert acc. induction l as [|e l IH]; intros acc; cbn [List.filter fold_left].
  - split; [auto|]. intros [H|(f & m & [] & _)]. assumption.
  - destruct (contributes e) eqn:Ec.
    + cbn [fold_left]. rewrite IH.
      destruct (register_keys acc e Ec) as (m & Hm & _ & ->).
      rewrite set_own_keys.
      destruct e as [f o]. cbn [snd] in Hm. subst o.
      destruct (existsb (String.eqb (version m)) (List.map fst acc)) eqn:Ex.
      * apply existsb_exists in Ex. destruct Ex as (k & Hk & Ek).
        apply String.eqb_eq in Ek. subst k. split.
        -- intros [H|(f' & m' & Hin & Hc & Hv)]; [auto|].
           right. exists f', m'. split; [now right|auto].
        -- intros [H|(f' & m' & [Hin|Hin] & Hc & Hv)]; [auto| |].
           ++ injection Hin as -> ->. left. now rewrite <- Hv.
           ++ right. exists f', m'. auto.
      * rewrite in_app_iff. cbn [In]. split.
        -- intros [[H|[H|[]]]|(f' & m' & Hin & Hc & Hv)]; [auto| |].
           ++ right. exists f, m. split; [now left|auto].
           ++ right. exists f', m'. split; [now right|auto].
        -- intros [H|(f' & m' & [Hin|Hin] & Hc & Hv)]; [auto| |].
           ++ injection Hin as -> ->. left. right. now left.
           ++ right. exists f', m'. auto.
    + rewrite IH. split.
      * intros [H|(f' & m' & Hin & Hc & Hv)]; [auto|].
        right. exists f', m'. split; [now right|auto].
      * intros [H|(f' & m' & [Hin|Hin] & Hc & Hv)]; [auto| |].
        -- subst e. congruence.
        -- right. exists f', m'. auto.
Qed.

Lemma registered_get_later l acc k :
  (forall e, In e l -> contributes e = true ->
             forall m, snd e = Parsed m -> version m <> k) ->
  Obj.get (fold_left register (List.filter contributes l) acc) k = Obj.get acc k.
Proof.
  revert acc. induction l as [|e l IH]; intros acc H; cbn [List.filter fold_left];
    [reflexivity|].
  destruct (contributes e) eqn:Ec.
  - cbn [fold_left]. rewrite IH by (intros e' He'; apply H; now right).
    destruct (register_keys acc e Ec) as (m & Hm & _ & ->).
    apply get_set_own_other. apply (H e); [now left|assumption|assumption].
  - apply IH. intros e' He'. apply H. now right.
Qed.

(** X6. With an empty cache, the loader writes one warning for each
    [.json] file whose reading or parsing fails, in the order of the
    listing, after what the console already held, and nothing else. *)
Theorem loader_warnings (entries : list (string * FileOutcome)) (w w' : World)
  (manifests : Registry) :
  manifestCache w = None ->
  loadManifests (Listing entries) w = (Ok manifests, w') ->
  console w'
  = (console w
       ++ List.map (fun e => warning (fst e)) (List.filter fails entries))%list.
Proof.
  intros Hc. rewrite (loadManifests_fresh _ _ Hc). now intros [= <- <-].
Qed.

Lemma loader_warnings_witness :
  console
    (snd (loadManifests
            (Listing [("a.json", Throws); ("notes.txt", Throws);
                      ("0.2.0.json", Parsed (manifestOf "0.2.0" []));
                      ("b.json", Throws)]) freshWorld))
  = [warning "a.json"; warning "b.json"].
Proof.
  apply (loader_warnings
           [("a.json", Throws); ("notes.txt", Throws);
            ("0.2.0.json", Parsed (manifestOf "0.2.0" []));
            ("b.json", Throws)] freshWorld _
           [("0.2.0", manifestOf "0.2.0" [])]); reflexivity.
Defined.

(** X7. With an empty cache, only the files that contribute matter to the
    registry: a file that is not a [.json] file, that fails to parse, or
    whose manifest has no version, leaves the registry exactly as it would
    be without that file. *)
Theorem loader_ignores_other_files (entries : list (string * FileOutcome))
  (w : World) :
  manifestCache w = None ->
  fst (loadManifests (Listing entries) w)
  = fst (loadManifests (Listing (List.filter contributes entries)) w).
Proof.
  intros Hc. rewrite !(loadManifests_fresh _ _ Hc). cbn [fst]. do 2 f_equal.
  induction entries as [|e l IH]; cbn [List.filter]; [reflexivity|].
  destruct (contributes e) eqn:E; [|assumption].
  cbn [List.filter]. rewrite E. now f_equal.
Qed.

Lemma loader_ignores_other_files_witness :
  fst (loadManifests
         (Listing [("README.md", Parsed (manifestOf "9.9.9" []));
                   ("draft.json", Parsed (manifestOf "" []));
                   ("0.2.0.json", Parsed (manifestOf "0.2.0" []));
                   ("bad.json", Throws)]) freshWorld)
  = fst (loadManifests
           (Listing [("0.2.0.json", Parsed (manifestOf "0.2.0" []))])
           freshWorld).
Proof.
  apply (loader_ignores_other_files
           [("README.md", Parsed (manifestOf "9.9.9" []));
            ("draft.json", Parsed (manifestOf "" []));
            ("0.2.0.json", Parsed (manifestOf "0.2.0" []));
            ("bad.json", Throws)] freshWorld).
  reflexivity.
Defined.

(** X8. With an empty cache, the versions of the loaded registry are
    exactly the versions of the manifests found in [.json] files that
    parse and carry a version: nothing else is registered and none of them
    is lost. *)
Theorem registry_versions (entries : list (string * FileOutcome)) (w w' : World)
  (manifests : Registry) (v : string) :
  manifestCache w = None ->
  loadManifests (Listing entries) w = (Ok manifests, w') ->
  (In v (List.map fst manifests)
   <-> exists f m, In (f, Parsed m) entries
                   /\ contributes (f, Parsed m) = true /\ version m = v).
Proof.
  intros Hc. rewrite (loadManifests_fresh _ _ Hc). intros [= <- _].
  rewrite registered_keys. cbn [List.map In]. tauto.
Qed.

Lemma registry_versions_witness :
  In "0.2.0"
    (List.map fst [("0.2.0", manifestOf "0.2.0" [])])
  <-> exists f m,
        In (f, Parsed m)
          [("0.2.0.json", Parsed (manifestOf "0.2.0" [])); ("bad.json", Throws)]
        /\ contributes (f, Parsed m) = true /\ version m = "0.2.0".
Proof.
  apply (registry_versions
           [("0.2.0.json", Parsed (manifestOf "0.2.0" [])); ("bad.json", Throws)]
           freshWorld
           {| manifestCache := Some [("0.2.0", manifestOf "0.2.0" [])];
              console := [warning "bad.json"] |}); reflexivity.
Defined.

(** X9. When several files declare the same version, the manifest of the
    last such file in the listing is the one registered under that
    version. *)
Theorem last_manifest_wins (before after : list (string * FileOutcome))
  (f : string) (m : MigrationManifest) (w w' : World) (manifests : Registry) :
  manifestCache w = None ->
  contributes (f, Parsed m) = true ->
  (forall f' m', In (f', Parsed m') after ->
                 contributes (f', Parsed m') = true -> version m' <> version m) ->
  loadManifests (Listing (before ++ (f, Parsed m) :: after)) w
  = (Ok manifests, w') ->
  Obj.get manifests (version m) = Some m.
Proof.
  intros Hc Hm Hafter. rewrite (loadManifests_fresh _ _ Hc). intros [= <- _].
  rewrite List.filter_app, fold_left_app. cbn [List.filter]. rewrite Hm.
  cbn [fold_left]. rewrite registered_get_later.
  - destruct (register_keys
                (fold_left register (List.filter contributes before) [])
                _ Hm) as (m0 & [= <-] & _ & ->).
    apply get_set_own_same.
  - intros [f' o'] Hin Hc' m' Ho. cbn [snd] in Ho. subst o'.
    now apply (Hafter f' m').
Qed.

Lemma last_manifest_wins_witness :
  Obj.get
    [("0.2.0",
      manifestOf "0.2.0" [{| type := delete; from := "new"; to := None |}])]
    "0.2.0"
  = Some (manifestOf "0.2.0" [{| type := delete; from := "new"; to := None |}]).
Proof.
  apply (last_manifest_wins
           [("a.json",
             Parsed (manifestOf "0.2.0"
                       [{| type := delete; from := "old"; to := None |}]))]
           [] "b.json"
           (manifestOf "0.2.0" [{| type := delete; from := "new"; to := None |}])
           freshWorld
           {| manifestCache :=
                Some [("0.2.0",
                       manifestOf "0.2.0"
                         [{| type := delete; from := "new"; to := None |}])];
              console := [] |}); try reflexivity.
  intros f' m' [].
Defined.

(** X10. Once a call has loaded the registry, every later call answers
    from the cache: whatever the directory has become, [loadManifests]
    and [getMigrationsForVersion] use the registry first loaded and leave
    the module state unchanged. *)
Theorem cache_is_sticky (dir dir' : ManifestsDir) (w w' : World)
  (manifests : Registry) (fromVersion toVersion : string) :
  loadManifests dir w = (Ok manifests, w') ->
  loadManifests dir' w' = (Ok manifests, w')
  /\ getMigrationsForVersion dir' fromVersion toVersion w'
     = (collectMigrations manifests fromVersion toVersion, w').
Proof.
  intros H. apply loadManifests_caches in H.
  unfold getMigrationsForVersion.
  rewrite (loadManifests_cached dir' _ _ H). auto.
Qed.

Lemma cache_is_sticky_witness :
  let w' := {| manifestCache := Some [("0.2.0", manifestOf "0.2.0" [])];
               console := [] |} in
  loadManifests Absent w' = (Ok [("0.2.0", manifestOf "0.2.0" [])], w')
  /\ getMigrationsForVersion Absent "0.1.0" "0.2.0" w'
     = (collectMigrations [("0.2.0", manifestOf "0.2.0" [])] "0.1.0" "0.2.0",
        w').
Proof.
  apply (cache_is_sticky
           (Listing [("0.2.0.json", Parsed (manifestOf "0.2.0" []))]) Absent
           freshWorld). reflexivity.
Defined.

(** X11. After [clearManifestCache] the next read scans the directory
    again: the registry it returns depends on the directory alone, not on
    what was cached or logged before. *)
Theorem clear_forces_rescan :
  forall (dir : ManifestsDir) (w : World),
    fst (loadManifests dir (clearManifestCache w))
    = fst (loadManifests dir freshWorld).
Proof.
  intros [| |entries] w; try reflexivity.
  rewrite !loadManifests_fresh by reflexivity. reflexivity.
Qed.

(** ** Ranges of versions *)

Lemma applicable_iff fromVersion toVersion v :
  applicable fromVersion toVersion v = true
  <-> compareVersions v fromVersion > 0 /\ compareVersions v toVersion <= 0.
Proof.
  unfold applicable. rewrite andb_true_iff, Z.gtb_ltb, Z.ltb_lt, Z.leb_le. lia.
Qed.

Lemma applicable_false_iff fromVersion toVersion v :
  applicable fromVersion toVersion v = false
  <-> ~ (compareVersions v fromVersion > 0 /\ compareVersions v toVersion <= 0).
Proof.
  rewrite <- applicable_iff. destruct (applicable fromVersion toVersion v);
    split; congruence.
Qed.

Lemma withManifests_loaded {A} (body : Registry -> A) dir w manifests w' :
  loadManifests dir w = (Ok manifests, w') ->
  withManifests body dir w = (Ok (body manifests), w').
Proof. intros H. unfold withManifests. now rewrite H. Qed.

Lemma filter_filter_implied {A} (f g : A -> bool) l :
  (forall x, f x = true -> g x = true) ->
  List.filter f (List.filter g l) = List.filter f l.
Proof.
  intros H. induction l as [|x l IH]; cbn [List.filter]; [reflexivity|].
  destruct (g x) eqn:Eg; cbn [List.filter]; rewrite IH; [reflexivity|].
  destruct (f x) eqn:Ef; [|reflexivity]. rewrite (H x Ef) in Eg. discriminate.
Qed.

Lemma filter_agree {A} (f g : A -> bool) l :
  (forall x, f x = g x) -> List.filter f l = List.filter g l.
Proof.
  intros H. induction l as [|x l IH]; cbn [List.filter]; [reflexivity|].
  now rewrite H, IH.
Qed.

Lemma filter_nil_Forall {A} (f : A -> bool) l :
  List.Forall (fun x => f x = false) l -> List.filter f l = [].
Proof.
  induction 1 as [|x l Hx _ IH]; cbn [List.filter]; [reflexivity|].
  now rewrite Hx.
Qed.

Lemma applicable_widen from1 to1 from2 to2 v :
  compareVersions from2 from1 <= 0 -> compareVersions to1 to2 <= 0 ->
  applicable from1 to1 v = true -> applicable from2 to2 v = true.
Proof.
  rewrite !applicable_iff. intros Hf Ht [H1 H2].
  pose proof (cmp_antisym _ compareVersions_comparator) as Ha.
  pose proof (cmp_trans _ compareVersions_comparator) as Htr.
  pose proof (Htr v to1 to2). pose proof (Htr v from2 from1).
  lia.
Qed.

Lemma applicable_split_sorted a b c l :
  compareVersions a b <= 0 -> compareVersions b c <= 0 ->
  StronglySorted versionLe l ->
  List.filter (applicable a c) l
  = (List.filter (applicable a b) l ++ List.filter (applicable b c) l)%list.
Proof.
  intros Hab Hbc.
  pose proof (cmp_antisym _ compareVersions_comparator) as Ha.
  pose proof (cmp_trans _ compareVersions_comparator) as Htr.
  induction 1 as [|x l Hs IH Hx]; cbn [List.filter]; [reflexivity|].
  destruct (applicable a b x) eqn:E1, (applicable b c x) eqn:E2,
    (applicable a c x) eqn:E3;
    pose proof E1 as E1'; pose proof E2 as E2'; pose proof E3 as E3';
    first [apply applicable_iff in E1'|apply applicable_false_iff in E1'];
    first [apply applicable_iff in E2'|apply applicable_false_iff in E2'];
    first [apply applicable_iff in E3'|apply applicable_false_iff in E3'];
    pose proof (Htr x b c); pose proof (Htr a b x); pose proof (Ha a b);
    pose proof (Ha x a); pose proof (Ha x b); pose proof (Ha x c);
    pose proof (Htr x a b); pose proof (Htr b c x);
    try (exfalso; lia).
  - cbn [app]. now rewrite IH.
  - assert (Hn : List.filter (applicable a b) l = []).
    { apply filter_nil_Forall. eapply List.Forall_impl; [|exact Hx].
      intros y Hy. unfold versionLe in Hy. apply applicable_false_iff.
      pose proof (Htr x y b). lia. }
    rewrite IH, Hn. reflexivity.
  - exact IH.
Qed.

Lemma applicableVersions_split manifests a b c :
  compareVersions a b <= 0 -> compareVersions b c <= 0 ->
  applicableVersions manifests a c
  = (applicableVersions manifests a b ++ applicableVersions manifests b c)%list.
Proof.
  intros Hab Hbc. unfold applicableVersions.
  apply applicable_split_sorted; [assumption|assumption|].
  apply (sort_sorted compareVersions), compareVersions_comparator.
Qed.

Lemma applicableVersions_downgrade manifests fromVersion toVersion :
  compareVersions fromVersion toVersion >= 0 ->
  applicableVersions manifests fromVersion toVersion = [].
Proof.
  intros H. unfold applicableVersions. apply filter_none.
  intros v. now apply applicable_empty.
Qed.

Lemma summaryOf_app p1 p2 :
  summaryOf (p1 ++ p2)
  = {| renames := renames (summaryOf p1) + renames (summaryOf p2);
       deletes := deletes (summaryOf p1) + deletes (summaryOf p2) |}.
Proof.
  unfold summaryOf. cbn [renames deletes].
  now rewrite !List.filter_app, !length_app.
Qed.

Lemma forallb_filter {A} (f g : A -> bool) l :
  forallb f l = true -> forallb f (List.filter g l) = true.
Proof.
  induction l as [|x l IH]; cbn [forallb List.filter]; [reflexivity|].
  intros H. apply andb_true_iff in H. destruct H as [Hx Hl].
  destruct (g x); cbn [forallb]; rewrite ?Hx; auto.
Qed.

(** X12. Widening the range never loses a migration: when the second
    range starts no later and ends no earlier than the first and the plan
    of the second is returned, the plan of the first is returned too, it
    visits the versions of the second plan that lie in the first range,
    and each of its items is an item of the second. *)
Theorem plan_grows_with_range (dir : ManifestsDir) (w w' : World)
  (manifests : Registry) (from1 to1 from2 to2 : string)
  (p2 : list MigrationItem) :
  loadManifests dir w = (Ok manifests, w') ->
  compareVersions from2 from1 <= 0 ->
  compareVersions to1 to2 <= 0 ->
  getMigrationsForVersion dir from2 to2 w = (Ok p2, w') ->
  applicableVersions manifests from1 to1
  = List.filter (applicable from1 to1) (applicableVersions manifests from2 to2)
  /\ exists p1,
       getMigrationsForVersion dir from1 to1 w = (Ok p1, w')
       /\ incl p1 p2.
Proof.
  intros Hload Hf Ht.
  assert (Hv : applicableVersions manifests from1 to1
               = List.filter (applicable from1 to1)
                   (applicableVersions manifests from2 to2)).
  { unfold applicableVersions. symmetry. apply filter_filter_implied.
    intros v. now apply applicable_widen. }
  rewrite !(getMigrations_loaded _ _ _ _ _ _ Hload), !collectMigrations_eq.
  destruct (forallb (iterableAt manifests) (applicableVersions manifests from2 to2))
    eqn:E2; [|discriminate].
  intros [= <-]. split; [exact Hv|].
  rewrite Hv, (forallb_filter _ _ _ E2).
  eexists. split; [reflexivity|].
  intros item Hin.
  apply in_flat_map in Hin. destruct Hin as (v & Hv' & Hi).
  apply in_flat_map. exists v. split; [|assumption].
  apply List.filter_In in Hv'. tauto.
Qed.

Lemma plan_grows_with_range_witness :
  let manifests :=
    [("0.2.0", manifestOf "0.2.0"
                 [{| type := rename; from := "a"; to := Some "b" |}]);
     ("0.3.0", manifestOf "0.3.0"
                 [{| type := delete; from := "c"; to := None |}])] in
  let w' := {| manifestCache := Some manifests; console := [] |} in
  exists p1,
    getMigrationsForVersion Absent "0.1.0" "0.2.0" w' = (Ok p1, w')
    /\ incl p1 [{| type := rename; from := "a"; to := Some "b" |};
                {| type := delete; from := "c"; to := None |}].
Proof.
  intros manifests w'.
  apply (plan_grows_with_range Absent w' w' manifests "0.1.0" "0.2.0"
           "0.1.0" "0.3.0"); try reflexivity; vm_compute; discriminate.
Defined.

Lemma plans_compose_aux manifests a b c :
  compareVersions a b <= 0 ->
  compareVersions b c <= 0 ->
  collectMigrations manifests a c
  = (let? p1 := collectMigrations manifests a b in
     let? p2 := collectMigrations manifests b c in
     Ok (p1 ++ p2)%list).
Proof.
  intros Hab Hbc. rewrite !collectMigrations_eq.
  rewrite (applicableVersions_split _ a b c Hab Hbc), forallb_app, flat_map_app.
  unfold bind.
  destruct (forallb (iterableAt manifests) (applicableVersions manifests a b));
    [|reflexivity].
  destruct (forallb (iterableAt manifests) (applicableVersions manifests b c));
    reflexivity.
Qed.

(** X13. Plans compose: for versions a, b, c in ascending order, the call
    from a to c does what the call from a to b followed by the call from
    b to c does: it returns the plan of the first leg followed by the plan
    of the second, item for item, and it raises when one of the legs
    raises. *)
Theorem plans_compose (dir : ManifestsDir) (w w' : World)
  (manifests : Registry) (a b c : string) :
  loadManifests dir w = (Ok manifests, w') ->
  compareVersions a b <= 0 ->
  compareVersions b c <= 0 ->
  exists r1 r2,
    getMigrationsForVersion dir a b w = (r1, w')
    /\ getMigrationsForVersion dir b c w = (r2, w')
    /\ getMigrationsForVersion dir a c w
       = (let? p1 := r1 in let? p2 := r2 in Ok (p1 ++ p2)%list, w').
Proof.
  intros Hload Hab Hbc.
  rewrite !(getMigrations_loaded _ _ _ _ _ _ Hload).
  eexists _, _. split; [reflexivity|]. split; [reflexivity|].
  now rewrite (plans_compose_aux _ a b c Hab Hbc).
Qed.

Lemma plans_compose_witness :
  let r := {| type := rename; from := "a"; to := Some "b" |} in
  let d := {| type := delete; from := "c"; to := None |} in
  let manifests :=
    [("0.3.0", manifestOf "0.3.0" [d]); ("0.2.0", manifestOf "0.2.0" [r])] in
  let w' := {| manifestCache := Some manifests; console := [] |} in
  exists r1 r2,
    getMigrationsForVersion Absent "0.1.0" "0.2.0" w' = (r1, w')
    /\ getMigrationsForVersion Absent "0.2.0" "0.3.0" w' = (r2, w')
    /\ getMigrationsForVersion Absent "0.1.0" "0.3.0" w'
       = (let? p1 := r1 in let? p2 := r2 in Ok (p1 ++ p2)%list, w')
    /\ r1 = Ok [r] /\ r2 = Ok [d].
Proof.
  intros r d manifests w'.
  destruct (plans_compose Absent w' w' manifests "0.1.0" "0.2.0" "0.3.0")
    as (r1 & r2 & H1 & H2 & H3);
    [reflexivity|vm_compute; discriminate|vm_compute; discriminate|].
  exists r1, r2. repeat (split; [assumption|]).
  split; [now injection H1|now injection H2].
Defined.

(** X14. The counts of [getMigrationSummary] and the answer of
    [hasPendingMigrations] compose the same way: over versions a, b, c in
    ascending order the summary from a to c adds the summaries of the two
    legs, migrations are pending from a to c exactly when they are pending
    on one of the legs, and either call raises when it raises on one of
    the legs. *)
Theorem summaries_compose (dir : ManifestsDir) (w w' : World)
  (manifests : Registry) (a b c : string) :
  loadManifests dir w = (Ok manifests, w') ->
  compareVersions a b <= 0 ->
  compareVersions b c <= 0 ->
  exists s1 s2 h1 h2,
    getMigrationSummary dir a b w = (s1, w')
    /\ getMigrationSummary dir b c w = (s2, w')
    /\ getMigrationSummary dir a c w
       = (let? x := s1 in
          let? y := s2 in
          Ok {| renames := renames x + renames y;
                deletes := deletes x + deletes y |}, w')
    /\ hasPendingMigrations dir a b w = (h1, w')
    /\ hasPendingMigrations dir b c w = (h2, w')
    /\ hasPendingMigrations dir a c w
       = (let? x := h1 in let? y := h2 in Ok (x || y), w').
Proof.
  intros Hload Hab Hbc.
  unfold getMigrationSummary, hasPendingMigrations.
  rewrite !(getMigrations_loaded _ _ _ _ _ _ Hload).
  rewrite (plans_compose_aux _ a b c Hab Hbc). unfold bind.
  destruct (collectMigrations manifests a b) as [p1|];
    destruct (collectMigrations manifests b c) as [p2|];
    eexists _, _, _, _; repeat (split; [reflexivity|]);
    try (split; reflexivity).
  split; [now rewrite summaryOf_app|].
  split; [reflexivity|]. split; [reflexivity|].
  do 2 f_equal. rewrite length_app.
  destruct (length p1), (length p2); reflexivity.
Qed.

Lemma summaries_compose_witness :
  let manifests :=
    [("0.3.0", manifestOf "0.3.0"
                 [{| type := delete; from := "c"; to := None |}]);
     ("0.2.0", manifestOf "0.2.0"
                 [{| type := rename; from := "a"; to := Some "b" |}])] in
  let w' := {| manifestCache := Some manifests; console := [] |} in
  getMigrationSummary Absent "0.1.0" "0.3.0" w'
  = (Ok {| renames := 1; deletes := 1 |}, w')
  /\ hasPendingMigrations Absent "0.1.0" "0.3.0" w' = (Ok true, w').
Proof.
  intros manifests w'.
  destruct (summaries_compose Absent w' w' manifests "0.1.0" "0.2.0" "0.3.0")
    as (s1 & s2 & h1 & h2 & H1 & H2 & H3 & H4 & H5 & H6);
    [reflexivity|vm_compute; discriminate|vm_compute; discriminate|].
  rewrite H3, H6.
  injection H1 as <-. injection H2 as <-. injection H4 as <-. injection H5 as <-.
  split; reflexivity.
Defined.

Lemma applicable_tie from1 to1 from2 to2 v :
  compareVersions from1 from2 = 0 -> compareVersions to1 to2 = 0 ->
  applicable from1 to1 v = applicable from2 to2 v.
Proof.
  intros Hf Ht. unfold applicable.
  pose proof (cmp_antisym _ compareVersions_comparator) as Ha.
  rewrite (Ha v from1), (Ha v to1), (Ha v from2), (Ha v to2).
  now rewrite (compareVersions_tie _ _ v Hf), (compareVersions_tie _ _ v Ht).
Qed.

(** X15. A query depends on its two versions only through the
    comparator: replacing either bound by a version that compares equal to
    it (1.0 for 1.0.0, say) changes neither the plan nor the metadata. *)
Theorem queries_respect_equal_versions (dir : ManifestsDir) (w : World)
  (from1 to1 from2 to2 : string) :
  compareVersions from1 from2 = 0 ->
  compareVersions to1 to2 = 0 ->
  getMigrationsForVersion dir from1 to1 w
  = getMigrationsForVersion dir from2 to2 w
  /\ getMigrationMetadata dir from1 to1 w
     = getMigrationMetadata dir from2 to2 w.
Proof.
  intros Hf Ht.
  assert (Hv : forall manifests,
             applicableVersions manifests from1 to1
             = applicableVersions manifests from2 to2).
  { intros manifests. unfold applicableVersions. apply filter_agree.
    intros v. now apply applicable_tie. }
  unfold getMigrationsForVersion, getMigrationMetadata, withManifests,
    collectMigrations, collectMetadata.
  destruct (loadManifests dir w) as [[manifests|] w1]; [|auto].
  now rewrite Hv.
Qed.

Lemma queries_respect_equal_versions_witness :
  getMigrationsForVersion Absent "1.0" "2.0.0" freshWorld
  = getMigrationsForVersion Absent "1.0.0" "2" freshWorld
  /\ getMigrationMetadata Absent "1.0" "2.0.0" freshWorld
     = getMigrationMetadata Absent "1.0.0" "2" freshWorld.
Proof.
  apply (queries_respect_equal_versions Absent freshWorld); reflexivity.
Defined.

(** X16. For equal versions or a downgrade, every range query reports
    nothing: no pending migration, a summary of zero renames and zero
    deletes, and empty metadata. *)
Theorem downgrade_reports_nothing (dir : ManifestsDir) (w w' : World)
  (manifests : Registry) (fromVersion toVersion : string) :
  loadManifests dir w = (Ok manifests, w') ->
  compareVersions fromVersion toVersion >= 0 ->
  hasPendingMigrations dir fromVersion toVersion w = (Ok false, w')
  /\ getMigrationSummary dir fromVersion toVersion w
     = (Ok {| renames := 0; deletes := 0 |}, w')
  /\ getMigrationMetadata dir fromVersion toVersion w = (Ok emptyMetadata, w').
Proof.
  intros Hload Hcmp.
  unfold hasPendingMigrations, getMigrationSummary, getMigrationMetadata.
  rewrite (getMigrations_loaded _ _ _ _ _ _ Hload),
    (withManifests_loaded _ _ _ _ _ Hload).
  rewrite (collectMigrations_none _ _ _ Hcmp). unfold collectMetadata.
  rewrite (applicableVersions_downgrade _ _ _ Hcmp). auto.
Qed.

Lemma downgrade_reports_nothing_witness :
  let manifests :=
    [("0.3.0", {| version := "0.3.0"; migrations := Some [];
                  changelog := Some "new layout"; breaking := true;
                  recommendMigrate := true; migrationGuide := Some "read me";
                  aiInstructions := None |})] in
  let w' := {| manifestCache := Some manifests; console := [] |} in
  hasPendingMigrations Absent "0.3.0" "0.3.0" w' = (Ok false, w')
  /\ getMigrationSummary Absent "0.3.0" "0.3.0" w'
     = (Ok {| renames := 0; deletes := 0 |}, w')
  /\ getMigrationMetadata Absent "0.3.0" "0.3.0" w' = (Ok emptyMetadata, w').
Proof.
  intros manifests w'.
  apply (downgrade_reports_nothing Absent w' w' manifests);
    [reflexivity|vm_compute; discriminate].
Defined.

(** ** All versions and all migrations *)






(** X17. [getAllMigrationVersions] returns every version of the registry,
    each as often as it is a key, in ascending order of the comparator;
    after a load from an empty cache no version is repeated. *)
Theorem all_versions_sorted (dir : ManifestsDir) (w w' : World)
  (manifests : Registry) :
  loadManifests dir w = (Ok manifests, w') ->
  exists vs,
    getAllMigrationVersions dir w = (Ok vs, w')
    /\ StronglySorted versionLe vs
    /\ Permutation vs (List.map fst manifests)
    /\ (manifestCache w = None -> NoDup vs).
Proof.
  intros Hload. unfold getAllMigrationVersions.
  rewrite (withManifests_loaded _ _ _ _ _ Hload).
  eexists. split; [reflexivity|].
  split; [apply (sort_sorted compareVersions), compareVersions_comparator|].
  assert (Hp : Permutation (Obj.sort compareVersions (Obj.keys manifests))
                 (List.map fst manifests)).
  { rewrite sort_perm. apply keys_perm. }
  split; [exact Hp|]. intros Hc.
  destruct (loaded_registry_wf _ _ _ _ Hc Hload) as [Hnd _].
  rewrite Hp. exact Hnd.
Qed.

Lemma all_versions_sorted_witness :
  exists vs,
    getAllMigrationVersions
      (Listing [("b.json", Parsed (manifestOf "0.10.0" []));
                ("a.json", Parsed (manifestOf "0.9.0" []))]) freshWorld
    = (Ok vs,
       {| manifestCache :=
            Some [("0.10.0", manifestOf "0.10.0" []);
                  ("0.9.0", manifestOf "0.9.0" [])];
          console := [] |})
    /\ StronglySorted versionLe vs.
Proof.
  destruct (all_versions_sorted
              (Listing [("b.json", Parsed (manifestOf "0.10.0" []));
                        ("a.json", Parsed (manifestOf "0.9.0" []))])
              freshWorld _ _ eq_refl) as (vs & H1 & H2 & _).
  exists vs. split; assumption.
Defined.



(** ** Metadata *)

Lemma collectMetadata_normal_form manifests vs acc :
  fold_left (metadataStep manifests) vs acc
  = {| Metadata.changelog :=
         (Metadata.changelog acc
            ++ flat_map changelogLine (manifestsOf manifests vs))%list;
       Metadata.breaking :=
         Metadata.breaking acc
         || existsb (fun e => breaking (snd e)) (manifestsOf manifests vs);
       Metadata.recommendMigrate :=
         Metadata.recommendMigrate acc
         || existsb (fun e => recommendMigrate (snd e))
              (manifestsOf manifests vs);
       Metadata.migrationGuides :=
         (Metadata.migrationGuides acc
            ++ flat_map guideOf (manifestsOf manifests vs))%list |}.
Proof.
  revert acc. induction vs as [|v vs IH]; intros acc;
    cbn [fold_left manifestsOf flat_map].
  - cbn [existsb]. rewrite !app_nil_r, !orb_false_r. now destruct acc.
  - rewrite IH. unfold metadataStep.
    destruct (Obj.get manifests v) as [m|]; [|reflexivity].
    cbn [app flat_map existsb snd fst Metadata.changelog Metadata.breaking
           Metadata.recommendMigrate Metadata.migrationGuides].
    unfold changelogLine, guideOf. cbn [fst snd].
    fold (manifestsOf manifests vs).
    destruct (JS.truthy (changelog m)), (JS.truthy (migrationGuide m)),
      (breaking m), (recommendMigrate m);
      cbn [app orb]; rewrite <- ?app_assoc, ?orb_true_r; reflexivity.
Qed.

Lemma collectMetadata_eq manifests fromVersion toVersion :
  collectMetadata manifests fromVersion toVersion
  = {| Metadata.changelog :=
         flat_map changelogLine
           (manifestsOf manifests
              (applicableVersions manifests fromVersion toVersion));
       Metadata.breaking :=
         existsb (fun e => breaking (snd e))
           (manifestsOf manifests
              (applicableVersions manifests fromVersion toVersion));
       Metadata.recommendMigrate :=
         existsb (fun e => recommendMigrate (snd e))
           (manifestsOf manifests
              (applicableVersions manifests fromVersion toVersion));
       Metadata.migrationGuides :=
         flat_map guideOf
           (manifestsOf manifests
              (applicableVersions manifests fromVersion toVersion)) |}.
Proof. unfold collectMetadata. now rewrite collectMetadata_normal_form. Qed.

Lemma manifestsOf_In manifests vs v m :
  In (v, m) (manifestsOf manifests vs)
  <-> In v vs /\ Obj.get manifests v = Some m.
Proof.
  unfold manifestsOf. rewrite in_flat_map. split.
  - intros (k & Hk & Hx). destruct (Obj.get manifests k) as [y|] eqn:E;
      [|destruct Hx]. destruct Hx as [[= -> ->]|[]]. auto.
  - intros [Hv Hg]. exists v. rewrite Hg. split; [assumption|now left].
Qed.

Lemma applicableVersions_In manifests fromVersion toVersion v :
  In v (applicableVersions manifests fromVersion toVersion)
  <-> In v (List.map fst manifests)
      /\ compareVersions v fromVersion > 0 /\ compareVersions v toVersion <= 0.
Proof.
  split.
  - intros H. apply (Permutation_in _ (applicableVersions_perm _ _ _)) in H.
    apply List.filter_In in H. now rewrite applicable_iff in H.
  - intros H. apply (Permutation_in _ (Permutation_sym (applicableVersions_perm _ _ _))).
    apply List.filter_In. now rewrite applicable_iff.
Qed.

Lemma flagged_iff (flag : MigrationManifest -> bool) manifests fromVersion toVersion :
  existsb (fun e => flag (snd e))
    (manifestsOf manifests (applicableVersions manifests fromVersion toVersion))
  = true
  <-> exists v m, In v (List.map fst manifests)
                  /\ compareVersions v fromVersion > 0
                  /\ compareVersions v toVersion <= 0
                  /\ Obj.get manifests v = Some m /\ flag m = true.
Proof.
  rewrite existsb_exists. split.
  - intros ([v m] & Hin & Hf). apply manifestsOf_In in Hin.
    destruct Hin as [Hv Hg]. apply applicableVersions_In in Hv.
    exists v, m. cbn [snd] in Hf. tauto.
  - intros (v & m & Hk & H1 & H2 & Hg & Hf). exists (v, m).
    split; [|exact Hf]. apply manifestsOf_In. split; [|assumption].
    apply applicableVersions_In. auto.
Qed.

(** X19. [getMigrationMetadata] reports [breaking] exactly when some
    registered version after [fromVersion] and not after [toVersion] has a
    manifest that sets it, and likewise [recommendMigrate]. *)
Theorem metadata_flags (dir : ManifestsDir) (w w' : World)
  (manifests : Registry) (fromVersion toVersion : string) :
  loadManifests dir w = (Ok manifests, w') ->
  exists md,
    getMigrationMetadata dir fromVersion toVersion w = (Ok md, w')
    /\ (Metadata.breaking md = true
        <-> exists v m, In v (List.map fst manifests)
                        /\ compareVersions v fromVersion > 0
                        /\ compareVersions v toVersion <= 0
                        /\ Obj.get manifests v = Some m /\ breaking m = true)
    /\ (Metadata.recommendMigrate md = true
        <-> exists v m, In v (List.map fst manifests)
                        /\ compareVersions v fromVersion > 0
                        /\ compareVersions v toVersion <= 0
                        /\ Obj.get manifests v = Some m
                        /\ recommendMigrate m = true).
Proof.
  intros Hload. unfold getMigrationMetadata.
  rewrite (withManifests_loaded _ _ _ _ _ Hload). eexists. split; [reflexivity|].
  rewrite collectMetadata_eq.
  cbn [Metadata.breaking Metadata.recommendMigrate].
  split; [apply (flagged_iff breaking)|apply (flagged_iff recommendMigrate)].
Qed.

Lemma metadata_flags_witness :
  let manifests :=
    [("0.3.0", {| version := "0.3.0"; migrations := Some [];
                  changelog := Some "new layout"; breaking := true;
                  recommendMigrate := false; migrationGuide := None;
                  aiInstructions := None |})] in
  let w' := {| manifestCache := Some manifests; console := [] |} in
  exists md,
    getMigrationMetadata Absent "0.2.0" "0.3.0" w' = (Ok md, w')
    /\ Metadata.breaking md = true.
Proof.
  intros manifests w'.
  destruct (metadata_flags Absent w' w' manifests "0.2.0" "0.3.0" eq_refl)
    as (md & H & Hb & _).
  exists md. split; [exact H|]. apply Hb.
  eexists "0.3.0", _.
  repeat split; first [reflexivity | now left | (vm_compute; discriminate)].
Defined.

Lemma guide_versions manifests vs :
  List.map Metadata.version (flat_map guideOf (manifestsOf manifests vs))
  = List.filter
      (fun v => match Obj.get manifests v with
                | Some m => JS.truthy (migrationGuide m)
                | None => false
                end) vs.
Proof.
  induction vs as [|v vs IH]; cbn [manifestsOf flat_map List.filter List.map];
    [reflexivity|].
  fold (manifestsOf manifests vs).
  destruct (Obj.get manifests v) as [m|]; cbn [app flat_map]; [|exact IH].
  unfold guideOf at 1. cbn [fst snd].
  destruct (JS.truthy (migrationGuide m)); cbn [app List.map Metadata.version];
    now rewrite ?app_nil_r, ?map_app, IH.
Qed.

(** X20. The migration guides returned by [getMigrationMetadata] are in
    ascending order of their versions; each one belongs to a registered
    version in the range and carries that manifest's guide and
    instructions.  Each changelog line is the version prefixed by v,
    a colon, and that manifest's changelog. *)
Theorem metadata_guides_ordered (dir : ManifestsDir) (w w' : World)
  (manifests : Registry) (fromVersion toVersion : string) :
  loadManifests dir w = (Ok manifests, w') ->
  exists md,
    getMigrationMetadata dir fromVersion toVersion w = (Ok md, w')
    /\ StronglySorted versionLe
         (List.map Metadata.version (Metadata.migrationGuides md))
    /\ List.Forall
         (fun g => exists m,
              Obj.get manifests (Metadata.version g) = Some m
              /\ compareVersions (Metadata.version g) fromVersion > 0
              /\ compareVersions (Metadata.version g) toVersion <= 0
              /\ migrationGuide m = Some (Metadata.guide g)
              /\ Metadata.guide g <> EmptyString
              /\ Metadata.aiInstructions g = aiInstructions m)
         (Metadata.migrationGuides md)
    /\ List.Forall
         (fun line => exists v m text,
              Obj.get manifests v = Some m
              /\ compareVersions v fromVersion > 0
              /\ compareVersions v toVersion <= 0
              /\ changelog m = Some text
              /\ line = ("v" ++ v ++ ": " ++ text)%string)
         (Metadata.changelog md).
Proof.
  intros Hload. unfold getMigrationMetadata.
  rewrite (withManifests_loaded _ _ _ _ _ Hload). eexists. split; [reflexivity|].
  rewrite collectMetadata_eq.
  cbn [Metadata.migrationGuides Metadata.changelog].
  split; [|split].
  - rewrite guide_versions. apply filter_sorted, applicableVersions_sorted.
  - apply List.Forall_forall. intros g Hg. apply in_flat_map in Hg.
    destruct Hg as ([v m] & Hin & Hg). apply manifestsOf_In in Hin.
    destruct Hin as [Hv Hget]. apply applicableVersions_In in Hv.
    unfold guideOf in Hg. cbn [fst snd] in Hg.
    destruct (migrationGuide m) as [[|c t]|] eqn:Em; cbn [JS.truthy] in Hg;
      [destruct Hg| |destruct Hg].
    destruct Hg as [<-|[]]. cbn [Metadata.version Metadata.guide
                                  Metadata.aiInstructions default].
    exists m. repeat split; try tauto. discriminate.
  - apply List.Forall_forall. intros line Hl. apply in_flat_map in Hl.
    destruct Hl as ([v m] & Hin & Hl). apply manifestsOf_In in Hin.
    destruct Hin as [Hv Hget]. apply applicableVersions_In in Hv.
    unfold changelogLine in Hl. cbn [fst snd] in Hl.
    destruct (changelog m) as [[|c t]|] eqn:Em; cbn [JS.truthy] in Hl;
      [destruct Hl| |destruct Hl].
    destruct Hl as [<-|[]]. exists v, m, (String c t).
    cbn [default]. repeat split; tauto.
Qed.

Lemma metadata_guides_ordered_witness :
  let manifests :=
    [("0.3.0", {| version := "0.3.0"; migrations := Some [];
                  changelog := Some "new layout"; breaking := true;
                  recommendMigrate := false; migrationGuide := Some "step 2";
                  aiInstructions := None |});
     ("0.2.0", {| version := "0.2.0"; migrations := Some [];
                  changelog := None; breaking := false;
                  recommendMigrate := false; migrationGuide := Some "step 1";
                  aiInstructions := Some "hint" |})] in
  let w' := {| manifestCache := Some manifests; console := [] |} in
  exists md,
    getMigrationMetadata Absent "0.1.0" "0.3.0" w' = (Ok md, w')
    /\ StronglySorted versionLe
         (List.map Metadata.version (Metadata.migrationGuides md)).
Proof.
  intros manifests w'.
  destruct (metadata_guides_ordered Absent w' w' manifests "0.1.0" "0.3.0"
              eq_refl) as (md & H & Hs & _).
  exists md. auto.
Defined.

Lemma manifestsOf_app manifests vs1 vs2 :
  manifestsOf manifests (vs1 ++ vs2)
  = (manifestsOf manifests vs1 ++ manifestsOf manifests vs2)%list.
Proof. unfold manifestsOf. apply flat_map_app. Qed.

(** X21. Metadata composes over adjacent ranges: for versions a, b, c in
    ascending order, the changelog and the guides from a to c are those
    from a to b followed by those from b to c, and each flag from a to c
    is the disjunction of the flags of the two legs. *)
Theorem metadata_composes (dir : ManifestsDir) (w w' : World)
  (manifests : Registry) (a b c : string) :
  loadManifests dir w = (Ok manifests, w') ->
  compareVersions a b <= 0 ->
  compareVersions b c <= 0 ->
  exists m1 m2,
    getMigrationMetadata dir a b w = (Ok m1, w')
    /\ getMigrationMetadata dir b c w = (Ok m2, w')
    /\ getMigrationMetadata dir a c w
       = (Ok {| Metadata.changelog :=
                  (Metadata.changelog m1 ++ Metadata.changelog m2)%list;
                Metadata.breaking :=
                  Metadata.breaking m1 || Metadata.breaking m2;
                Metadata.recommendMigrate :=
                  Metadata.recommendMigrate m1 || Metadata.recommendMigrate m2;
                Metadata.migrationGuides :=
                  (Metadata.migrationGuides m1
                     ++ Metadata.migrationGuides m2)%list |}, w').
Proof.
  intros Hload Hab Hbc. unfold getMigrationMetadata.
  rewrite !(withManifests_loaded _ _ _ _ _ Hload).
  eexists _, _. split; [reflexivity|]. split; [reflexivity|].
  rewrite !collectMetadata_eq.
  cbn [Metadata.changelog Metadata.breaking Metadata.recommendMigrate
         Metadata.migrationGuides].
  rewrite (applicableVersions_split _ a b c Hab Hbc), manifestsOf_app,
    !flat_map_app, !existsb_app.
  reflexivity.
Qed.

Lemma metadata_composes_witness :
  let manifests :=
    [("0.3.0", {| version := "0.3.0"; migrations := Some [];
                  changelog := Some "new layout"; breaking := true;
                  recommendMigrate := false; migrationGuide := Some "step 2";
                  aiInstructions := None |});
     ("0.2.0", {| version := "0.2.0"; migrations := Some [];
                  changelog := Some "first"; breaking := false;
                  recommendMigrate := true; migrationGuide := None;
                  aiInstructions := None |})] in
  let w' := {| manifestCache := Some manifests; console := [] |} in
  exists m1 m2,
    getMigrationMetadata Absent "0.1.0" "0.2.0" w' = (Ok m1, w')
    /\ getMigrationMetadata Absent "0.2.0" "0.3.0" w' = (Ok m2, w')
    /\ getMigrationMetadata Absent "0.1.0" "0.3.0" w'
       = (Ok {| Metadata.changelog :=
                  (Metadata.changelog m1 ++ Metadata.changelog m2)%list;
                Metadata.breaking :=
                  Metadata.breaking m1 || Metadata.breaking m2;
                Metadata.recommendMigrate :=
                  Metadata.recommendMigrate m1 || Metadata.recommendMigrate m2;
                Metadata.migrationGuides :=
                  (Metadata.migrationGuides m1
                     ++ Metadata.migrationGuides m2)%list |}, w').
Proof.
  intros manifests w'.
  apply (metadata_composes Absent w' w' manifests); try reflexivity;
    vm_compute; discriminate.
Defined.

(** ** The directory *)

(** X22. A missing manifests directory is not an error: with an empty
    cache every query answers as for an empty registry, which is then
    cached, and nothing is logged. *)
Theorem missing_directory_is_empty :
  forall (out : list string) (fromVersion toVersion : string),
    let w := {| manifestCache := None; console := out |} in
    let w' := {| manifestCache := Some []; console := out |} in
    loadManifests Absent w = (Ok [], w')
    /\ getMigrationsForVersion Absent fromVersion toVersion w = (Ok [], w')
    /\ hasPendingMigrations Absent fromVersion toVersion w = (Ok false, w')
    /\ getMigrationSummary Absent fromVersion toVersion w
       = (Ok {| renames := 0; deletes := 0 |}, w')
    /\ getAllMigrationVersions Absent w = (Ok [], w')
    /\ getAllMigrations Absent w = (Ok [], w')
    /\ getMigrationMetadata Absent fromVersion toVersion w
       = (Ok emptyMetadata, w').
Proof. intros out fromVersion toVersion. repeat split. Qed.

(** X23. When the directory exists but cannot be listed, the exception is
    not caught: with an empty cache every query raises, logs nothing and
    caches nothing, so a later call scans the directory again. *)
Theorem unlistable_directory_raises :
  forall (out : list string) (fromVersion toVersion : string)
         (entries : list (string * FileOutcome)),
    let w := {| manifestCache := None; console := out |} in
    loadManifests Unlistable w = (Raise, w)
    /\ getMigrationsForVersion Unlistable fromVersion toVersion w = (Raise, w)
    /\ hasPendingMigrations Unlistable fromVersion toVersion w = (Raise, w)
    /\ getMigrationSummary Unlistable fromVersion toVersion w = (Raise, w)
    /\ getAllMigrationVersions Unlistable w = (Raise, w)
    /\ getAllMigrations Unlistable w = (Raise, w)
    /\ getMigrationMetadata Unlistable fromVersion toVersion w = (Raise, w)
    /\ fst (loadManifests (Listing entries)
              (snd (loadManifests Unlistable w)))
       = fst (loadManifests (Listing entries) w).
Proof. intros out fromVersion toVersion entries. repeat split. Qed.
